(** * typescript.koans: array helpers (02_array.ts) and Stack (06_stack.ts)

    A shallow embedding of the TypeScript sources.

    Conventions of the embedding:
    - a JavaScript [number] used as an index, a count or a length is a [Z]
      (the sources only do integer arithmetic on them; fractional numbers,
      NaN and the infinities are outside the model).  A loop counter stepped
      by [i++] or [i--] is exact as long as it stays within [exact_limit]
      ([2^53]) in magnitude; the statements about loops whose start is not
      bounded otherwise carry that bound;
    - a dense array that is only read is a [list A];
    - the outcome of an array read [a[i]] and of the Stack accessors is a
      [jsval A]: an element, or one of the two JavaScript no-value
      sentinels [undefined] and [null];
    - [fill] writes into an array object, so array objects live in a heap
      ([gmap loc (jsarray A)]) and may carry holes and extra properties;
    - the Stack object is its single field [array]; every method that
      assigns [this.array] returns the new object state.  The methods never
      write into an array in place ([push] and [pop] build a new one), so
      the field is held by value. *)

From Stdlib Require Import ZArith List Lia Bool String.
From stdpp Require Import base option list gmap.

Local Open Scope Z_scope.

(** ** JavaScript runtime primitives used by the sources *)

Module Js.

(** The result of a property read: a proper element or a sentinel. *)
Inductive jsval (A : Type) : Type :=
| undefined : jsval A
| null : jsval A
| Val (a : A) : jsval A.
Arguments undefined {A}.
Arguments null {A}.
Arguments Val {A} a.

(** Errors the runtime can throw in the modelled fragment. *)
Inductive exn : Type :=
| RangeError.

(** [2^53]: every integer up to this magnitude is a [number], and adding or
    subtracting 1 is exact there. *)
Definition exact_limit : Z := 9007199254740992.

Section Arrays.
Context {A : Type}.

(** [a.length] *)
Definition len (a : list A) : Z := Z.of_nat (length a).

(** [a[i]]: reading outside [0, a.length) yields [undefined]. *)
Definition get (a : list A) (i : Z) : jsval A :=
  if i <? 0 then undefined
  else match a !! Z.to_nat i with
       | Some x => Val x
       | None => undefined
       end.

(** Relative index of [Array.prototype.slice]: a negative argument counts
    from the end, everything is clamped to [0, length]. *)
Definition relative (n : Z) (i : Z) : Z :=
  if i <? 0 then Z.max (n + i) 0 else Z.min i n.

(** [a.slice(start, end)]; an omitted [start] is 0, an omitted [end] is
    [a.length]. *)
Definition slice (a : list A) (start end_ : option Z) : list A :=
  let k := relative (len a) (default 0 start) in
  let final := relative (len a) (default (len a) end_) in
  firstn (Z.to_nat (final - k)) (skipn (Z.to_nat k) a).

(** A callback of [Array.prototype.findIndex]: value, index, array. *)
Definition callback : Type := A -> Z -> list A -> bool.

(** The scan of [Array.prototype.findIndex] over the remaining
    elements [rest], which start at index [i] of [whole]. *)
Fixpoint findIndex_scan (p : callback) (whole rest : list A) (i : Z) : Z :=
  match rest with
  | [] => -1
  | x :: rest' =>
      if p x i whole then i else findIndex_scan p whole rest' (i + 1)
  end.

(** [a.findIndex(p)] *)
Definition findIndex (a : list A) (p : callback) : Z :=
  findIndex_scan p a a 0.

(** [a.reverse()] (on a fresh copy, so the in-place reversal is not
    observable). *)
Definition reverse (a : list A) : list A := rev a.

(** [Array(n).fill(0).map(f)]: the list of [f i] for [i] in [0, n);
    [Array(n)] throws a [RangeError] for a negative [n]. *)
Definition tabulate {B : Type} (n : Z) (f : Z -> B) : exn + list B :=
  if n <? 0 then inl RangeError
  else inr ((fun i : nat => f (Z.of_nat i)) <$> seq 0 (Z.to_nat n)).

(** [Math.ceil(a / b)] for integers [a] and [b <> 0]. *)
Definition ceil_div (a b : Z) : Z := - ((- a) / b).

End Arrays.

(** *** Array objects that are written to

    An array object has its indexed slots ([None] is a hole, which reads as
    [undefined]) and its other own properties.  Only integer keys occur in
    the sources, so the other properties are keyed by [Z]. *)

Record jsarray (A : Type) : Type := JsArray {
  elems : list (option A);
  props : gmap Z A
}.
Arguments JsArray {A} elems props.
Arguments elems {A} j.
Arguments props {A} j.

(** References to array objects. *)
Definition loc : Type := nat.

Section Objects.
Context {A : Type}.

(** A dense array without extra properties. *)
Definition dense (l : list A) : jsarray A := JsArray (Some <$> l) ∅.

(** The largest array length, [2^32 - 1]; array indices are below it. *)
Definition max_length : Z := 4294967295.

(** [a[i] = v].  Inside the array the slot is overwritten; an index at or
    past the length grows the array, leaving holes in between; a key that is
    not an array index becomes an ordinary property. *)
Definition array_set (a : jsarray A) (i : Z) (v : A) : jsarray A :=
  let n := len (elems a) in
  if (0 <=? i) && (i <? n) then
    JsArray (<[Z.to_nat i := Some v]> (elems a)) (props a)
  else if (n <=? i) && (i <? max_length) then
    JsArray (elems a ++ replicate (Z.to_nat (i - n)) None ++ [Some v])
            (props a)
  else
    JsArray (elems a) (<[i := v]> (props a)).

(** [a[i]] on an array object. *)
Definition array_get (a : jsarray A) (i : Z) : jsval A :=
  match get (elems a) i with
  | Val (Some x) => Val x
  | Val None => undefined
  | _ => match props a !! i with
         | Some x => Val x
         | None => undefined
         end
  end.

(** The heap of array objects. *)
Definition alloc (h : gmap loc (jsarray A)) (a : jsarray A)
  : loc * gmap loc (jsarray A) :=
  let l := fresh (dom h) in (l, <[l := a]> h).

(** [l[i] = v] through a reference. *)
Definition store (h : gmap loc (jsarray A)) (l : loc) (i : Z) (v : A)
  : gmap loc (jsarray A) :=
  alter (fun a => array_set a i v) l h.

(** [l.slice(start, end)] through a reference: a new array object holding
    the selected slots (holes stay holes, other properties are not
    copied).  [None] when [l] is not allocated. *)
Definition slice_ref (h : gmap loc (jsarray A)) (l : loc)
    (start end_ : option Z) : option (loc * gmap loc (jsarray A)) :=
  a ← h !! l;
  Some (alloc h (JsArray (slice (elems a) start end_) ∅)).

End Objects.

(** *** Values of type [any] and truthiness *)

(** The numbers of the model: the integers (with [Int 0] for [+0]), [-0],
    the infinities and [NaN]. *)
Inductive number : Type :=
| NaN
| NegZero
| Infinity (negative : bool)
| Int (z : Z).

(** A value of type [any]. *)
Inductive any : Type :=
| AUndefined
| ANull
| ABoolean (b : bool)
| ANumber (n : number)
| AString (s : string)
| AObject (l : loc).

(** [ToBoolean]: [undefined], [null], [false], [+0], [-0], [NaN] and the
    empty string are falsy, everything else is truthy. *)
Definition ToBoolean (v : any) : bool :=
  match v with
  | AUndefined | ANull => false
  | ABoolean b => b
  | ANumber NaN | ANumber NegZero => false
  | ANumber (Infinity _) => true
  | ANumber (Int z) => negb (z =? 0)
  | AString EmptyString => false
  | AString (String _ _) => true
  | AObject _ => true
  end.

Section Callbacks.
Context {A : Type}.

(** The scan of [Array.prototype.filter] over the remaining elements
    [rest], which start at index [i] of [whole]: an element is kept when
    the callback's result is truthy. *)
Fixpoint filter_scan (f : A -> Z -> list A -> any) (whole rest : list A)
    (i : Z) : list A :=
  match rest with
  | [] => []
  | x :: rest' =>
      if ToBoolean (f x i whole) then
        x :: filter_scan f whole rest' (i + 1)
      else filter_scan f whole rest' (i + 1)
  end.

(** [a.filter(f)] *)
Definition array_filter (a : list A) (f : A -> Z -> list A -> any) : list A :=
  filter_scan f a a 0.

(** [a.push(x1, ..., xn)]: the array afterwards. *)
Definition array_push (a items : list A) : list A := a ++ items.

(** A read result seen at a wider element type. *)
Definition widen {B : Type} (f : A -> B) (x : jsval A) : jsval B :=
  match x with
  | undefined => undefined
  | null => null
  | Val a => Val (f a)
  end.

End Callbacks.

End Js.

Import Js.

(** ** 02_array.ts *)

Module Array02.

Section Array02.
Context {T : Type}.

(** [chunk(input, size = 1)] *)
Definition chunk (input : list T) (size : option Z) : exn + list (list T) :=
  let size := default 1 size in
  if size =? 0 then inl RangeError (* length / 0 is Infinity or NaN *)
  else
    tabulate (ceil_div (len input) size)
             (fun i => slice input (Some (i * size)) (Some (i * size + size))).

(** [drop(input, count = 1)] *)
Definition drop (input : list T) (count : option Z) : list T :=
  let count := default 1 count in
  slice input (Some count) (Some (len input)).

(** [dropRight(input, count = 1)] *)
Definition dropRight (input : list T) (count : option Z) : list T :=
  let count := default 1 count in
  slice input (Some 0) (Some (len input - count)).

(** [negate(predicate)]: forwards all its arguments. *)
Definition negate (predicate : @callback T) : @callback T :=
  fun value index collection => negb (predicate value index collection).

(** [dropWhile(collection, predicate)] *)
Definition dropWhile (collection : list T) (predicate : @callback T)
  : list T :=
  let startIndex := Js.findIndex collection (negate predicate) in
  slice collection (Some startIndex) (Some (len collection)).

(** [dropRightWhile(collection, predicate)] *)
Definition dropRightWhile (collection : list T) (predicate : @callback T)
  : list T :=
  let endOffset :=
    Js.findIndex (reverse (slice collection None None)) (negate predicate) in
  slice collection (Some 0) (Some (len collection - endOffset)).

(** The loop of [fill]: [for (let i = startIndex; i < endIndex; i++)
    result[i] = replacement], unrolled at most [n] times.  The counter is
    exact for [- exact_limit <= startIndex]. *)
Fixpoint fill_loop (n : nat) (h : gmap loc (jsarray T)) (result : loc)
    (replacement : T) (i endIndex : Z) : gmap loc (jsarray T) :=
  match n with
  | O => h
  | S n' =>
      if i <? endIndex then
        fill_loop n' (store h result i replacement) result replacement
                  (i + 1) endIndex
      else h
  end.

(** [fill(collection, replacement, startIndex, endIndex)]: returns the
    reference to the result and the heap after the call.  The loop runs
    [endIndex - startIndex] times when that is positive and not at all
    otherwise.  The function itself throws nothing; [None] only stands for
    a [collection] that is not an allocated array. *)
Definition fill (h : gmap loc (jsarray T)) (collection : loc)
    (replacement : T) (startIndex endIndex : Z)
  : option (loc * gmap loc (jsarray T)) :=
  '(result, h1) ← slice_ref h collection None None;
  Some (result,
        fill_loop (Z.to_nat (endIndex - startIndex)) h1 result replacement
                  startIndex endIndex).

(** [findIndex(collection, predicate, startIndex = 0)] *)
Definition findIndex (collection : list T) (predicate : @callback T)
    (startIndex : option Z) : Z :=
  let startIndex := default 0 startIndex in
  let foundIndex :=
    Js.findIndex (slice collection (Some startIndex) None) predicate in
  if foundIndex =? -1 then foundIndex else startIndex + foundIndex.

(** [findLastIndex(collection, predicate, startIndex = length - 1)]: the
    backward loop, unrolled at most [n] times.  The counter is exact for
    [startIndex <= exact_limit]. *)
Fixpoint findLastIndex_loop (n : nat) (collection : list T)
    (predicate : jsval T -> Z -> list T -> bool) (i : Z) : Z :=
  match n with
  | O => -1
  | S n' =>
      if 0 <=? i then
        if predicate (get collection i) i collection then i
        else findLastIndex_loop n' collection predicate (i - 1)
      else -1
  end.

Definition findLastIndex (collection : list T)
    (predicate : jsval T -> Z -> list T -> bool) (startIndex : option Z)
  : Z :=
  let startIndex := default (len collection - 1) startIndex in
  findLastIndex_loop (Z.to_nat (startIndex + 1)) collection predicate
                     startIndex.

(** [nth(array, n = 0)] *)
Definition nth (array : list T) (n : option Z) : jsval T :=
  get array (default 0 n).

(** [head(input)] *)
Definition head (input : list T) : jsval T := get input 0.

(** [initial(input)] *)
Definition initial (input : list T) : list T :=
  let length := len input in
  let endIndex := Z.max (length - 1) 1 in
  slice input (Some 0) (Some endIndex).

(** [last(input)] *)
Definition last (input : list T) : jsval T :=
  let length := len input in
  if length =? 0 then undefined else get input (length - 1).

End Array02.

(** [compact(input)] *)
Definition compact (input : list any) : list any :=
  array_filter input (fun item _ _ => item).

(** The element type [T | U | V] of the entries of [zip]. *)
Inductive union3 (T U V : Type) : Type :=
| In1 (t : T)
| In2 (u : U)
| In3 (v : V).
Arguments In1 {T U V} t.
Arguments In2 {T U V} u.
Arguments In3 {T U V} v.

Section Zip.
Context {T U V : Type}.

(** The loop of [zip]: [for (let i = 0; i < array1.length; i++)], unrolled
    at most [n] times; [result] is the array built so far. *)
Fixpoint zip_loop (n : nat) (array1 : list T) (array2 : list U)
    (array3 : list V) (i : Z) (result : list (list (jsval (union3 T U V))))
  : list (list (jsval (union3 T U V))) :=
  match n with
  | O => result
  | S n' =>
      if i <? len array1 then
        let entry :=
          array_push [] [widen In1 (get array1 i); widen In2 (get array2 i);
                         widen In3 (get array3 i)] in
        zip_loop n' array1 array2 array3 (i + 1) (array_push result [entry])
      else result
  end.

(** [zip(array1, array2, array3)] *)
Definition zip (array1 : list T) (array2 : list U) (array3 : list V)
  : list (list (jsval (union3 T U V))) :=
  zip_loop (Z.to_nat (len array1)) array1 array2 array3 0 [].

End Zip.

End Array02.

(** ** 06_stack.ts *)

Module Stack06.

Section Stack06.
Context {T : Type}.

(** The object state: the field [array]. *)
Record Stack : Type := { array : list T }.

(** [constructor()] *)
Definition new : Stack := {| array := [] |}.

(** [get size()] *)
Definition size (this : Stack) : Z := len (array this).

(** [pop()]: the returned value and the object afterwards. *)
Definition pop (this : Stack) : jsval T * Stack :=
  let top := get (array this) 0 in
  (top, {| array := slice (array this) (Some 1) None |}).

(** [peek()] *)
Definition peek (this : Stack) : jsval T :=
  if len (array this) =? 0 then null else get (array this) 0.

(** [toArray()] *)
Definition toArray (this : Stack) : list T := array this.

(** [push(value)] *)
Definition push (value : T) (this : Stack) : Stack :=
  {| array := value :: array this |}.

End Stack06.

Arguments Stack T : clear implicits.

End Stack06.

(** ** Notions used to state the properties *)

(** The first [j] groups of [m] consecutive elements of [input]. *)
Definition windows {T : Type} (input : list T) (m j : nat) : list (list T) :=
  (fun i : nat => take m (drop (i * m) input)) <$> seq 0 j.

(** The loop of [fill] seen on the array object behind [result] alone. *)
Fixpoint fill_array {T : Type} (n : nat) (a : jsarray T) (replacement : T)
    (i endIndex : Z) : jsarray T :=
  match n with
  | O => a
  | S n' =>
      if i <? endIndex then
        fill_array n' (array_set a i replacement) replacement (i + 1) endIndex
      else a
  end.

(** The entry of [zip] for index [i]: the three reads side by side. *)
Definition zip_entry {T U V : Type} (array1 : list T) (array2 : list U)
    (array3 : list V) (i : Z) : list (jsval (Array02.union3 T U V)) :=
  [widen Array02.In1 (get array1 i); widen Array02.In2 (get array2 i);
   widen Array02.In3 (get array3 i)].

(** The heap with the single dense array [l], at reference 0. *)
Definition heap_of {T : Type} (l : list T) : gmap loc (jsarray T) :=
  {[ 0%nat := dense l ]}.

(** An element type for arrays mixing numbers and strings. *)
Inductive prim : Type :=
| Num (n : Z)
| Str (s : string).

Module StackRun.
Import Stack06.

Section StackRun.
Context {T : Type}.

(** A call of a Stack method. *)
Inductive op : Type :=
| Push (value : T)
| Pop
| Peek
| ToArray.

(** A completed call with what it returned. *)
Inductive event : Type :=
| Pushed (value : T)
| Popped (r : jsval T)
| Peeked (r : jsval T)
| Listed (a : list T).

(** One call on the object [this]: the event and the object afterwards. *)
Definition step (o : op) (this : Stack T) : event * Stack T :=
  match o with
  | Push v => (Pushed v, push v this)
  | Pop => (Popped (fst (pop this)), snd (pop this))
  | Peek => (Peeked (peek this), this)
  | ToArray => (Listed (toArray this), this)
  end.

(** A sequence of calls, first call first. *)
Fixpoint run (ops : list op) (this : Stack T) : list event * Stack T :=
  match ops with
  | [] => ([], this)
  | o :: ops' =>
      let r := step o this in
      let rs := run ops' (snd r) in
      (fst r :: fst rs, snd rs)
  end.

(** Number of [push] calls in a trace. *)
Fixpoint pushes (trace : list event) : Z :=
  match trace with
  | [] => 0
  | Pushed _ :: trace' => 1 + pushes trace'
  | _ :: trace' => pushes trace'
  end.

(** Number of [pop] calls in a trace that returned an element. *)
Fixpoint successful_pops (trace : list event) : Z :=
  match trace with
  | [] => 0
  | Popped (Val _) :: trace' => 1 + successful_pops trace'
  | _ :: trace' => successful_pops trace'
  end.

(** The values pushed and not yet popped, oldest first, after the calls
    [ops] on a stack that held [held]: each [pop] cancels the latest
    push that is still there. *)
Fixpoint pending_from (held : list T) (ops : list op) : list T :=
  match ops with
  | [] => held
  | Push v :: ops' => pending_from (held ++ [v]) ops'
  | Pop :: ops' => pending_from (removelast held) ops'
  | _ :: ops' => pending_from held ops'
  end.

Definition pending (ops : list op) : list T := pending_from [] ops.

End StackRun.

Arguments op T : clear implicits.
Arguments event T : clear implicits.

End StackRun.

(** * Properties *)

(** ** The examples of the sources' documentation *)

Section ChunkExamples.
Local Open Scope string_scope.

Example chunk_example_2 :
  Array02.chunk ["a"; "b"; "c"; "d"] (Some 2) = inr [["a"; "b"]; ["c"; "d"]].
Proof. reflexivity. Qed.

Example chunk_example_3 :
  Array02.chunk ["a"; "b"; "c"; "d"] (Some 3) = inr [["a"; "b"; "c"]; ["d"]].
Proof. reflexivity. Qed.

Example chunk_example_default :
  Array02.chunk ["a"; "b"; "c"] None = inr [["a"]; ["b"]; ["c"]].
Proof. reflexivity. Qed.

End ChunkExamples.

Example drop_example : Array02.drop [1; 2; 3; 4] (Some 2) = [3; 4].
Proof. reflexivity. Qed.

Example drop_example_default : Array02.drop [1; 2; 3; 4] None = [2; 3; 4].
Proof. reflexivity. Qed.

Example dropRight_example : Array02.dropRight [1; 2; 3; 4] (Some 2) = [1; 2].
Proof. reflexivity. Qed.

Example dropRight_example_default :
  Array02.dropRight [1; 2; 3; 4] None = [1; 2; 3].
Proof. reflexivity. Qed.

Example dropWhile_example :
  Array02.dropWhile [1; 2; 3; 4; 5; 1] (fun value _ _ => value <? 3)
  = [3; 4; 5; 1].
Proof. reflexivity. Qed.

Example dropRightWhile_example :
  Array02.dropRightWhile [5; 4; 3; 2; 1] (fun value _ _ => value <? 3)
  = [5; 4; 3].
Proof. reflexivity. Qed.

Example findIndex_example_none :
  Array02.findIndex [4; 6; 8; 10] (fun _ _ _ => false) None = -1.
Proof. reflexivity. Qed.

Example findIndex_example_found :
  Array02.findIndex [4; 6; 8; 10] (fun value _ _ => value =? 6) None = 1.
Proof. reflexivity. Qed.

Example findIndex_example_from :
  Array02.findIndex [4; 6; 6; 8; 10] (fun value _ _ => value =? 6) (Some 2)
  = 2.
Proof. reflexivity. Qed.

Example findLastIndex_example :
  Array02.findLastIndex [4; 6; 8; 6; 10]
    (fun value _ _ => match value with Val x => x =? 6 | _ => false end) None
  = 3.
Proof. reflexivity. Qed.

Example nth_example : Array02.nth [1; 2; 3] (Some 1) = Val 2.
Proof. reflexivity. Qed.

Example nth_example_default : Array02.nth [1; 2; 3] None = Val 1.
Proof. reflexivity. Qed.

Example toArray_example :
  Stack06.toArray (Stack06.push 2 (Stack06.push 1 Stack06.new)) = [2; 1].
Proof. reflexivity. Qed.

(** ** Facts about the runtime primitives *)

Section SliceFacts.
Context {A : Type}.
Implicit Types (a : list A) (s e w i : Z).

Lemma len_nonneg a : 0 <= len a.
Proof. unfold len. lia. Qed.

Lemma relative_nonneg a i : 0 <= i -> relative (len a) i = Z.min i (len a).
Proof. intros Hi. unfold relative. destruct (Z.ltb_spec i 0); lia. Qed.

Lemma slice_nonneg a s e :
  0 <= s -> 0 <= e ->
  slice a (Some s) (Some e) =
  take (Z.to_nat (Z.min e (len a) - Z.min s (len a)))
       (drop (Z.to_nat (Z.min s (len a))) a).
Proof.
  intros Hs He. unfold slice. simpl. by rewrite !relative_nonneg by lia.
Qed.

Lemma slice_from a s :
  0 <= s -> slice a (Some s) None = drop (Z.to_nat s) a.
Proof.
  intros Hs. unfold slice. simpl.
  rewrite !relative_nonneg by (auto using len_nonneg).
  rewrite Z.min_id. unfold len.
  destruct (Z.le_ge_cases s (Z.of_nat (length a))) as [Hle|Hge].
  - rewrite Z.min_l by lia. apply take_ge. rewrite length_drop. lia.
  - rewrite Z.min_r by lia. rewrite Nat2Z.id, !drop_ge by lia. by rewrite take_nil.
Qed.

Lemma slice_to_end a s :
  0 <= s -> slice a (Some s) (Some (len a)) = drop (Z.to_nat s) a.
Proof. intros Hs. by rewrite <- slice_from. Qed.

Lemma slice_copy a : slice a None None = a.
Proof.
  unfold slice. simpl. rewrite !relative_nonneg by (pose proof (len_nonneg a); lia).
  rewrite Z.min_id, Z.min_l by apply len_nonneg. simpl.
  apply take_ge. unfold len. lia.
Qed.

Lemma slice_window a s w :
  0 <= s -> 0 <= w ->
  slice a (Some s) (Some (s + w)) = take (Z.to_nat w) (drop (Z.to_nat s) a).
Proof.
  intros Hs Hw. rewrite slice_nonneg by lia. unfold len.
  destruct (Z.le_ge_cases s (Z.of_nat (length a))) as [Hle|Hge].
  - rewrite (Z.min_l s) by lia.
    destruct (Z.le_ge_cases (s + w) (Z.of_nat (length a))).
    + rewrite Z.min_l by lia. f_equal. lia.
    + rewrite Z.min_r by lia. rewrite !take_ge; [done | |];
        rewrite length_drop; lia.
  - rewrite !Z.min_r by lia. rewrite Z.sub_diag, Nat2Z.id. simpl.
    rewrite !drop_ge by lia. by rewrite !take_nil.
Qed.

End SliceFacts.

(** ** chunk *)

Section ChunkFacts.
Context {T : Type}.
Implicit Types (input : list T) (m j : nat) (n : Z).

Lemma ceil_div_bounds (a b : Z) :
  0 < b -> (ceil_div a b - 1) * b < a <= ceil_div a b * b.
Proof.
  intros Hb. unfold ceil_div.
  pose proof (Z.div_mod (- a) b ltac:(lia)).
  pose proof (Z.mod_pos_bound (- a) b Hb). nia.
Qed.

Lemma ceil_div_nonneg (a b : Z) : 0 <= a -> 0 < b -> 0 <= ceil_div a b.
Proof. intros Ha Hb. pose proof (ceil_div_bounds a b Hb). nia. Qed.

Lemma chunk_windows input n :
  1 <= n ->
  Array02.chunk input (Some n) =
  inr (windows input (Z.to_nat n) (Z.to_nat (ceil_div (len input) n))).
Proof.
  intros Hn. unfold Array02.chunk, tabulate. simpl.
  destruct (Z.eqb_spec n 0) as [|_]; [lia|].
  pose proof (ceil_div_nonneg (len input) n (len_nonneg input) ltac:(lia)).
  destruct (Z.ltb_spec (ceil_div (len input) n) 0) as [|_]; [lia|].
  f_equal. unfold windows. apply list_fmap_ext. intros _ i _.
  rewrite slice_window by lia. do 2 f_equal. lia.
Qed.

Lemma concat_windows input m j :
  concat (windows input m j) = take (j * m) input.
Proof.
  unfold windows. induction j as [|j IH].
  - done.
  - rewrite seq_S, fmap_app, concat_app, IH. simpl.
    rewrite app_nil_r, take_take_drop. f_equal. lia.
Qed.

Lemma windows_lookup input m j i g :
  windows input m j !! i = Some g ->
  (i < j)%nat /\ g = take m (drop (i * m) input).
Proof.
  unfold windows. rewrite list_lookup_fmap. intros Hg.
  destruct (seq 0 j !! i) as [k|] eqn:Hk; [|done].
  apply lookup_seq in Hk as [-> ?]. simpl in Hg. split; [done|congruence].
Qed.

Lemma length_windows input m j : length (windows input m j) = j.
Proof. unfold windows. by rewrite length_fmap, length_seq. Qed.

End ChunkFacts.

(** C7: for a size [n >= 1], [chunk] succeeds, flattening its groups gives
    the input back, every group but the last has exactly [n] elements, no
    group is empty or has more than [n] elements, there are
    [ceil(length / n)] groups (the least [k] with [length <= k * n]), and
    for a non-empty input there is a last group and it is non-empty. *)
Theorem chunk_flatten {T : Type} (input : list T) (n : Z) :
  1 <= n ->
  exists groups,
    Array02.chunk input (Some n) = inr groups /\
    concat groups = input /\
    (forall (i : nat) g,
        groups !! i = Some g -> (S i < length groups)%nat -> len g = n) /\
    (forall (i : nat) g, groups !! i = Some g -> 1 <= len g <= n) /\
    (len groups - 1) * n < len input <= len groups * n /\
    (input <> [] -> exists g, last groups = Some g /\ g <> []).
Proof.
  intros Hn.
  pose proof (ceil_div_bounds (len input) n ltac:(lia)) as Hb.
  pose proof (ceil_div_nonneg (len input) n (len_nonneg input) ltac:(lia)) as Hk.
  set (k := ceil_div (len input) n) in *.
  exists (windows input (Z.to_nat n) (Z.to_nat k)).
  split; [by apply chunk_windows|]. unfold len in *.
  split; [|split; [|split; [|split]]].
  - rewrite concat_windows. apply take_ge. nia.
  - intros i g Hg Hi. rewrite length_windows in Hi.
    apply windows_lookup in Hg as [_ ->].
    rewrite length_take, length_drop. nia.
  - intros i g Hg. apply windows_lookup in Hg as [Hi ->].
    rewrite length_take, length_drop. nia.
  - rewrite length_windows. lia.
  - intros Hne. assert (0 < length input)%nat by (destruct input; simpl; [done|lia]).
    rewrite last_lookup, length_windows.
    assert (0 < k) by nia.
    destruct (windows input (Z.to_nat n) (Z.to_nat k) !! pred (Z.to_nat k))
      as [g|] eqn:Hg.
    + exists g. split; [done|].
      apply windows_lookup in Hg as [_ ->].
      intros Hnil. apply (f_equal length) in Hnil.
      rewrite length_take, length_drop in Hnil. simpl in Hnil. nia.
    + apply lookup_ge_None in Hg. rewrite length_windows in Hg. lia.
Qed.

Lemma chunk_flatten_witness :
  exists groups,
    Array02.chunk [1; 2; 3; 4; 5] (Some 2) = inr groups /\
    concat groups = [1; 2; 3; 4; 5] /\
    (forall (i : nat) g,
        groups !! i = Some g -> (S i < length groups)%nat -> len g = 2) /\
    (forall (i : nat) g, groups !! i = Some g -> 1 <= len g <= 2) /\
    (len groups - 1) * 2 < len [1; 2; 3; 4; 5] <= len groups * 2 /\
    ([1; 2; 3; 4; 5] <> [] -> exists g, last groups = Some g /\ g <> []).
Proof. apply (chunk_flatten [1; 2; 3; 4; 5] 2). lia. Defined.

(** ** Array.prototype.findIndex *)

Section FindIndexFacts.
Context {A : Type}.
Implicit Types (a whole rest : list A) (p : @callback A) (i : Z) (k j : nat).

Lemma findIndex_scan_found p whole rest i k x :
  rest !! k = Some x ->
  p x (i + Z.of_nat k) whole = true ->
  (forall j y, (j < k)%nat -> rest !! j = Some y ->
               p y (i + Z.of_nat j) whole = false) ->
  findIndex_scan p whole rest i = i + Z.of_nat k.
Proof.
  revert i k. induction rest as [|y rest IH]; intros i k Hk Hp Hbefore.
  - done.
  - destruct k as [|k]; simpl in *.
    + injection Hk as ->. rewrite Z.add_0_r in Hp. rewrite Hp. lia.
    + assert (p y i whole = false) as ->.
      { rewrite <- (Hbefore 0%nat y) by (done || lia). f_equal. simpl. lia. }
      rewrite (IH (i + 1) k); [lia|done| |].
      * by replace (i + 1 + Z.of_nat k) with (i + Z.of_nat (S k)) by lia.
      * intros j z Hj Hz.
        replace (i + 1 + Z.of_nat j) with (i + Z.of_nat (S j)) by lia.
        apply Hbefore; [lia|done].
Qed.

Lemma findIndex_scan_none p whole rest i :
  (forall k x, rest !! k = Some x -> p x (i + Z.of_nat k) whole = false) ->
  findIndex_scan p whole rest i = -1.
Proof.
  revert i. induction rest as [|y rest IH]; intros i Hall; [done|].
  simpl. assert (p y i whole = false) as ->.
  { rewrite <- (Hall 0%nat y) by done. f_equal. simpl. lia. }
  apply IH. intros k x Hk.
  replace (i + 1 + Z.of_nat k) with (i + Z.of_nat (S k)) by lia.
  by apply Hall.
Qed.

Lemma findIndex_found a p k x :
  a !! k = Some x ->
  p x (Z.of_nat k) a = true ->
  (forall j y, (j < k)%nat -> a !! j = Some y -> p y (Z.of_nat j) a = false) ->
  Js.findIndex a p = Z.of_nat k.
Proof.
  intros. unfold Js.findIndex.
  by rewrite (findIndex_scan_found p a a 0 k x).
Qed.

Lemma findIndex_none a p :
  (forall k x, a !! k = Some x -> p x (Z.of_nat k) a = false) ->
  Js.findIndex a p = -1.
Proof. intros. unfold Js.findIndex. by apply findIndex_scan_none. Qed.

End FindIndexFacts.

(** ** drop and dropRight *)

Section DropFacts.
Context {T : Type}.
Implicit Types (input : list T) (count : Z).

Lemma drop_spec input count :
  0 <= count ->
  Array02.drop input (Some count) = drop (Z.to_nat count) input.
Proof.
  intros Hc. unfold Array02.drop. simpl. by apply slice_to_end.
Qed.

Lemma drop_all input count :
  len input <= count -> Array02.drop input (Some count) = [].
Proof.
  intros Hc. pose proof (len_nonneg input).
  rewrite drop_spec by lia. apply drop_ge. unfold len in *. lia.
Qed.

Lemma dropRight_within input count :
  0 <= count <= len input ->
  Array02.dropRight input (Some count) =
  take (Z.to_nat (len input - count)) input.
Proof.
  intros Hc. unfold Array02.dropRight. simpl.
  rewrite slice_nonneg by lia.
  rewrite Z.min_l, Z.min_l by lia. simpl. f_equal. lia.
Qed.

(** Past the length the end index of the slice turns negative and counts
    from the end of the array again. *)
Lemma dropRight_beyond input count :
  len input < count ->
  Array02.dropRight input (Some count) =
  take (Z.to_nat (2 * len input - count)) input.
Proof.
  intros Hc. pose proof (len_nonneg input).
  unfold Array02.dropRight, slice, relative. simpl.
  destruct (Z.ltb_spec (len input - count) 0); [|lia].
  rewrite Z.min_l by lia. simpl. f_equal. lia.
Qed.

End DropFacts.

(** C2: with 5 > length, [dropRight] of a four-element array keeps three
    elements, where [drop] with the same count returns the empty array. *)
Theorem dropRight_count_beyond_length :
  Array02.dropRight [1; 2; 3; 4] (Some 5) = [1; 2; 3] /\
  Array02.drop [1; 2; 3; 4] (Some 5) = [].
Proof. split; reflexivity. Qed.

(** ** dropWhile and dropRightWhile *)

Section DropWhileFacts.
Context {T : Type}.
Implicit Types (collection : list T) (predicate : @callback T) (k j : nat).

Lemma dropWhile_first_false collection predicate k x :
  collection !! k = Some x ->
  predicate x (Z.of_nat k) collection = false ->
  (forall j y, (j < k)%nat -> collection !! j = Some y ->
               predicate y (Z.of_nat j) collection = true) ->
  Array02.dropWhile collection predicate = drop k collection.
Proof.
  intros Hk Hx Hbefore. unfold Array02.dropWhile.
  rewrite (findIndex_found collection (Array02.negate predicate) k x).
  - rewrite slice_to_end by lia. by rewrite Nat2Z.id.
  - done.
  - unfold Array02.negate. by rewrite Hx.
  - intros j y Hj Hy. unfold Array02.negate. by rewrite (Hbefore j y).
Qed.

(** When the predicate holds everywhere, the search answers -1 and the
    slice starts one element before the end. *)
Lemma dropWhile_all_true collection predicate :
  (forall k x, collection !! k = Some x ->
               predicate x (Z.of_nat k) collection = true) ->
  Array02.dropWhile collection predicate =
  drop (length collection - 1) collection.
Proof.
  intros Hall. unfold Array02.dropWhile.
  rewrite findIndex_none.
  - unfold slice. simpl.
    rewrite (relative_nonneg collection (len collection)) by apply len_nonneg.
    rewrite Z.min_id. unfold relative. simpl. unfold len.
    destruct collection as [|x l]; [done|].
    remember (x :: l) as c eqn:Hc.
    assert (1 <= length c)%nat by (subst c; simpl; lia).
    rewrite Z.max_l by lia.
    rewrite take_ge by (rewrite length_drop; lia).
    f_equal. lia.
  - intros k x Hk. unfold Array02.negate. by rewrite (Hall k x).
Qed.

Lemma dropRightWhile_all_true collection predicate :
  (forall k x, rev collection !! k = Some x ->
               predicate x (Z.of_nat k) (rev collection) = true) ->
  Array02.dropRightWhile collection predicate = collection.
Proof.
  intros Hall. unfold Array02.dropRightWhile, reverse.
  rewrite slice_copy, findIndex_none.
  - pose proof (len_nonneg collection).
    rewrite slice_nonneg by lia.
    rewrite (Z.min_l 0), Z.min_r by lia. apply take_ge. unfold len. lia.
  - intros k x Hk. unfold Array02.negate. by rewrite (Hall k x).
Qed.

Lemma dropRightWhile_last_false collection predicate k x :
  rev collection !! k = Some x ->
  predicate x (Z.of_nat k) (rev collection) = false ->
  (forall j y, (j < k)%nat -> rev collection !! j = Some y ->
               predicate y (Z.of_nat j) (rev collection) = true) ->
  Array02.dropRightWhile collection predicate =
  take (length collection - k) collection.
Proof.
  intros Hk Hx Hbefore. unfold Array02.dropRightWhile, reverse.
  rewrite slice_copy.
  rewrite (findIndex_found _ (Array02.negate predicate) k x).
  - apply lookup_lt_Some in Hk. rewrite length_rev in Hk.
    unfold len. rewrite slice_nonneg by lia. unfold len.
    rewrite (Z.min_l 0), Z.min_l by lia. simpl. f_equal. lia.
  - done.
  - unfold Array02.negate. by rewrite Hx.
  - intros j y Hj Hy. unfold Array02.negate. by rewrite (Hbefore j y).
Qed.

End DropWhileFacts.

(** C1: with a predicate that holds for every element of a three-element
    array, [dropWhile] keeps the last element and [dropRightWhile] keeps
    the whole array; neither returns the empty array. *)
Theorem dropWhile_predicate_always_true :
  Array02.dropWhile [1; 2; 3] (fun _ _ _ => true) = [3] /\
  Array02.dropRightWhile [1; 2; 3] (fun _ _ _ => true) = [1; 2; 3].
Proof. split; reflexivity. Qed.

(** ** findIndex *)

Section FindIndexFrom.
Context {T : Type}.
Implicit Types (collection : list T) (q : T -> bool) (s : Z) (k j : nat).

(** For a predicate that only looks at the value, the search from
    [startIndex] finds the first match at or after [startIndex]. *)
Lemma findIndex_value_found collection q s k x :
  0 <= s <= Z.of_nat k ->
  collection !! k = Some x ->
  q x = true ->
  (forall j y, (Z.to_nat s <= j < k)%nat -> collection !! j = Some y ->
               q y = false) ->
  Array02.findIndex collection (fun v _ _ => q v) (Some s) = Z.of_nat k.
Proof.
  intros Hs Hk Hx Hbefore. unfold Array02.findIndex. simpl.
  rewrite slice_from by lia.
  rewrite (findIndex_found _ _ (k - Z.to_nat s) x).
  - destruct (Z.eqb_spec (Z.of_nat (k - Z.to_nat s)) (-1)); lia.
  - rewrite lookup_drop. rewrite <- Hk. f_equal. lia.
  - done.
  - intros j y Hj Hy. rewrite lookup_drop in Hy.
    apply (Hbefore (Z.to_nat s + j)%nat); [lia|done].
Qed.

Lemma findIndex_value_none collection q s :
  0 <= s ->
  (forall j y, (Z.to_nat s <= j)%nat -> collection !! j = Some y ->
               q y = false) ->
  Array02.findIndex collection (fun v _ _ => q v) (Some s) = -1.
Proof.
  intros Hs Hall. unfold Array02.findIndex. simpl.
  rewrite slice_from by lia. rewrite findIndex_none; [done|].
  intros j y Hy. rewrite lookup_drop in Hy.
  apply (Hall (Z.to_nat s + j)%nat); [lia|done].
Qed.

End FindIndexFrom.

(** C3: searching [4, 6, 8] from index 1 with the predicate "the index is
    2" answers -1, although index 2 is at or after the start and the
    predicate holds there on the collection; the predicate is run on the
    slice, with the slice's indices.  [findLastIndex] runs it on the
    collection and finds index 2. *)
Theorem findIndex_predicate_sees_slice :
  Array02.findIndex [4; 6; 8] (fun _ i _ => i =? 2) (Some 1) = -1 /\
  (fun (_ : Z) (i : Z) (_ : list Z) => i =? 2) 8 2 [4; 6; 8] = true /\
  Array02.findLastIndex [4; 6; 8] (fun _ i _ => i =? 2) (Some 2) = 2.
Proof. repeat split; reflexivity. Qed.

(** ** nth *)

(** C10: [nth] never fails; inside [0, length) it returns the element at
    index [n], outside it returns [undefined], and an omitted [n] is 0. *)
Theorem nth_in_and_out_of_range {T : Type} (array : list T) (n : Z) :
  (0 <= n < len array ->
   exists x, array !! Z.to_nat n = Some x /\
             Array02.nth array (Some n) = Val x) /\
  (~ (0 <= n < len array) -> Array02.nth array (Some n) = undefined) /\
  Array02.nth array None = Array02.nth array (Some 0).
Proof.
  unfold Array02.nth, get, len. simpl. repeat split.
  - intros Hn. destruct (Z.ltb_spec n 0); [lia|].
    destruct (array !! Z.to_nat n) as [x|] eqn:Hx; [by exists x|].
    apply lookup_ge_None in Hx. lia.
  - intros Hn. destruct (Z.ltb_spec n 0); [done|].
    rewrite (proj2 (lookup_ge_None array (Z.to_nat n))); [done|lia].
Qed.

Lemma nth_in_and_out_of_range_witness :
  (exists x, [1; 2; 3] !! Z.to_nat 2 = Some x /\
             Array02.nth [1; 2; 3] (Some 2) = Val x) /\
  Array02.nth [1; 2; 3] (Some 3) = undefined /\
  Array02.nth [1; 2; 3] (Some (-1)) = undefined.
Proof.
  split; [|split].
  - apply (proj1 (nth_in_and_out_of_range [1; 2; 3] 2)). unfold len. simpl. lia.
  - apply (proj1 (proj2 (nth_in_and_out_of_range [1; 2; 3] 3))).
    unfold len. simpl. lia.
  - apply (proj1 (proj2 (nth_in_and_out_of_range [1; 2; 3] (-1)))). lia.
Defined.

(** ** Stack *)

Section StackFacts.
Import Stack06 StackRun.
Context {T : Type}.
Implicit Types (this s : Stack T) (l held : list T) (ops : list (op T)).

Lemma pop_empty : pop (T:=T) {| array := [] |} = (undefined, {| array := [] |}).
Proof. reflexivity. Qed.

Lemma pop_cons x l :
  pop {| array := x :: l |} = (Val x, {| array := l |}).
Proof.
  unfold pop. simpl. f_equal. f_equal.
  rewrite slice_from by lia. done.
Qed.

(** What was pushed last comes out first, and the stack is as before. *)
Lemma pop_push x s : pop (push x s) = (Val x, s).
Proof. destruct s as [l]. apply pop_cons. Qed.

Lemma size_push x s : size (push x s) = size s + 1.
Proof. unfold size, push, len. simpl. lia. Qed.

Lemma size_pop_nonempty s :
  size s <> 0 -> size (snd (pop s)) = size s - 1.
Proof.
  destruct s as [[|x l]]; [done|]. intros _. rewrite pop_cons.
  unfold size, len. simpl. lia.
Qed.

Lemma pop_returns_element_iff s :
  (exists x, fst (pop s) = Val x) <-> size s <> 0.
Proof.
  destruct s as [[|x l]].
  - rewrite pop_empty. split; [by intros [x Hx]|done].
  - rewrite pop_cons. split; [done|by exists x].
Qed.

(** The backing array lists the pending values, latest first. *)
Lemma run_pending_from ops s :
  array (snd (run ops s)) = rev (pending_from (rev (array s)) ops).
Proof.
  revert s. induction ops as [|o ops IH]; intros [l].
  - simpl. by rewrite rev_involutive.
  - cbn [run snd]. rewrite IH. destruct o as [v| | |]; cbn [step snd]; try done.
    destruct l as [|x l].
    + by rewrite pop_empty.
    + rewrite pop_cons. simpl. by rewrite removelast_last.
Qed.

Lemma run_size ops s :
  size (snd (run ops s)) =
  size s + pushes (fst (run ops s)) - successful_pops (fst (run ops s)).
Proof.
  revert s. induction ops as [|o ops IH]; intros s; [simpl; lia|].
  cbn [run fst snd]. rewrite IH.
  destruct o as [v| | |]; cbn [step fst snd pushes successful_pops]; try lia.
  - rewrite size_push. lia.
  - destruct s as [[|x l]].
    + rewrite pop_empty. cbn [fst snd]. lia.
    + rewrite pop_cons. cbn [fst snd]. unfold size, len. simpl length. lia.
Qed.

End StackFacts.

Section StackClaims.
Import Stack06 StackRun.

(** C4: after any sequence of calls on a new Stack, [pop] returns the
    latest pushed value that has not been popped yet and the size drops by
    one; when no such value is left it returns [undefined] and leaves the
    object, and so its size 0, as it was.  After push(1), push(2), push(3)
    the first [pop] returns 3 and leaves size 2, the next two return 2 and 1,
    and a fourth returns [undefined] with size 0. *)
Theorem pop_returns_latest_pending :
  (forall (T : Type) (ops : list (op T)),
      let s := snd (run ops new) in
      match last (pending ops) with
      | Some v =>
          fst (pop s) = Val v /\
          size (snd (pop s)) = size s - 1 /\
          toArray (snd (pop s)) = rev (removelast (pending ops))
      | None => pop s = (undefined, s) /\ size s = 0
      end) /\
  run [Push 1; Push 2; Push 3; Pop] new =
    ([Pushed 1; Pushed 2; Pushed 3; Popped (Val 3)], {| array := [2; 1] |}) /\
  size (snd (run [Push 1; Push 2; Push 3; Pop] new)) = 2 /\
  run [Push 1; Push 2; Push 3; Pop; Pop; Pop; Pop] new =
    ([Pushed 1; Pushed 2; Pushed 3;
      Popped (Val 3); Popped (Val 2); Popped (Val 1); Popped undefined],
     new) /\
  size (snd (run [Push 1; Push 2; Push 3; Pop; Pop; Pop; Pop] new)) = 0.
Proof.
  split; [|repeat split; reflexivity].
  intros T ops s.
  pose proof (run_pending_from ops (@new T)) as Harr.
  fold s in Harr. simpl in Harr. fold (pending ops) in Harr.
  destruct s as [l]. simpl in Harr. subst l.
  destruct (pending ops) as [|v held _] using rev_ind.
  - simpl. by rewrite pop_empty.
  - rewrite last_snoc, rev_unit, pop_cons, removelast_last.
    unfold size, toArray, len. simpl. repeat split. lia.
Qed.

(** C8: after any sequence of push, pop, peek and toArray calls on a new
    Stack, [size] is the number of pushes minus the number of pops that
    returned an element, which is the number of elements held; a push adds
    exactly one, a pop on a non-empty stack removes exactly one, peek and
    toArray leave the object as it is. *)
Theorem size_counts_held_elements {T : Type} (ops : list (op T)) :
  let r := run ops new in
  size (snd r) = pushes (fst r) - successful_pops (fst r) /\
  size (snd r) = len (pending ops) /\
  (forall v (s : Stack T), size (push v s) = size s + 1) /\
  (forall s : Stack T, size s <> 0 -> size (snd (pop s)) = size s - 1) /\
  (forall s : Stack T, snd (step Peek s) = s /\ snd (step ToArray s) = s).
Proof.
  intros r. subst r. repeat split.
  - rewrite run_size. unfold size, len. simpl. lia.
  - unfold size. rewrite run_pending_from. unfold len.
    by rewrite length_rev.
  - intros v s. apply size_push.
  - intros s. apply size_pop_nonempty.
Qed.

(** C9: on an empty Stack [pop] returns [undefined] and [peek] returns
    [null]; the two results differ. *)
Theorem empty_pop_undefined_peek_null {T : Type} (s : Stack T) :
  size s = 0 ->
  fst (pop s) = undefined /\ peek s = null /\ fst (pop s) <> peek s.
Proof.
  destruct s as [[|x l]]; [intros _|by unfold size, len].
  rewrite pop_empty. unfold peek. simpl. by repeat split.
Qed.

Lemma empty_pop_undefined_peek_null_witness :
  fst (pop (@new Z)) = undefined /\ peek (@new Z) = null /\
  fst (pop (@new Z)) <> peek (@new Z).
Proof. apply (empty_pop_undefined_peek_null (@new Z)). reflexivity. Defined.

End StackClaims.

(** ** The loops run to their exit test

    The unrolling bounds chosen in [fill], [findLastIndex] and [zip] are the
    trip counts of the loops: more unrolling changes nothing. *)

Section LoopBounds.
Context {T : Type}.

Lemma fill_loop_fuel (n : nat) (h : gmap loc (jsarray T)) (r : loc) (v : T)
    (i e : Z) :
  (Z.to_nat (e - i) <= n)%nat ->
  Array02.fill_loop n h r v i e =
  Array02.fill_loop (Z.to_nat (e - i)) h r v i e.
Proof.
  revert h i. induction n as [|n IH]; intros h i Hn.
  - by replace (Z.to_nat (e - i)) with 0%nat by lia.
  - cbn [Array02.fill_loop]. destruct (Z.ltb_spec i e) as [Hlt|Hge].
    + replace (Z.to_nat (e - i)) with (S (Z.to_nat (e - (i + 1)))) by lia.
      cbn [Array02.fill_loop].
      destruct (Z.ltb_spec i e); [|lia]. apply IH. lia.
    + by replace (Z.to_nat (e - i)) with 0%nat by lia.
Qed.

Lemma findLastIndex_loop_fuel (n : nat) (collection : list T)
    (predicate : jsval T -> Z -> list T -> bool) (i : Z) :
  (Z.to_nat (i + 1) <= n)%nat ->
  Array02.findLastIndex_loop n collection predicate i =
  Array02.findLastIndex_loop (Z.to_nat (i + 1)) collection predicate i.
Proof.
  revert i. induction n as [|n IH]; intros i Hn.
  - by replace (Z.to_nat (i + 1)) with 0%nat by lia.
  - cbn [Array02.findLastIndex_loop]. destruct (Z.leb_spec 0 i) as [Hle|Hlt].
    + replace (Z.to_nat (i + 1)) with (S (Z.to_nat (i - 1 + 1))) by lia.
      cbn [Array02.findLastIndex_loop].
      destruct (Z.leb_spec 0 i); [|lia].
      destruct (predicate (get collection i) i collection); [done|].
      apply IH. lia.
    + by replace (Z.to_nat (i + 1)) with 0%nat by lia.
Qed.

Lemma zip_loop_fuel {U V : Type} (n : nat) (array1 : list T)
    (array2 : list U) (array3 : list V) (i : Z)
    (result : list (list (jsval (Array02.union3 T U V)))) :
  (Z.to_nat (len array1 - i) <= n)%nat ->
  Array02.zip_loop n array1 array2 array3 i result =
  Array02.zip_loop (Z.to_nat (len array1 - i)) array1 array2 array3 i result.
Proof.
  revert i result. induction n as [|n IH]; intros i result Hn.
  - by replace (Z.to_nat (len array1 - i)) with 0%nat by lia.
  - cbn [Array02.zip_loop].
    destruct (Z.ltb_spec i (len array1)) as [Hlt|Hge].
    + replace (Z.to_nat (len array1 - i))
        with (S (Z.to_nat (len array1 - (i + 1)))) by lia.
      cbn [Array02.zip_loop].
      destruct (Z.ltb_spec i (len array1)); [|lia]. apply IH. lia.
    + by replace (Z.to_nat (len array1 - i)) with 0%nat by lia.
Qed.

End LoopBounds.

(** ** fill *)

Section FillFacts.
Context {T : Type}.
Implicit Types (h : gmap loc (jsarray T)) (a : jsarray T) (l seq : list T).
Implicit Types (v : T) (r c : loc) (i j s e : Z) (n : nat).

Lemma fill_loop_insert n h r a v i e :
  Array02.fill_loop n (<[r := a]> h) r v i e =
  <[r := fill_array n a v i e]> h.
Proof.
  revert a i. induction n as [|n IH]; intros a i; simpl; [done|].
  destruct (i <? e); [|done].
  unfold store. by rewrite alter_insert_eq, IH.
Qed.

(** [fill] allocates a copy of the indexed slots and runs the loop on it. *)
Lemma fill_unfold h c seq v s e :
  h !! c = Some (dense seq) ->
  Array02.fill h c v s e =
  Some (fresh (dom h),
        <[fresh (dom h) := fill_array (Z.to_nat (e - s)) (dense seq) v s e]> h).
Proof.
  intros Hc. unfold Array02.fill, slice_ref, alloc. rewrite Hc. simpl.
  rewrite slice_copy. fold (dense seq). by rewrite fill_loop_insert.
Qed.

Lemma fresh_unallocated h : h !! fresh (dom h) = None.
Proof. apply not_elem_of_dom, is_fresh. Qed.

Lemma array_set_dense l i v :
  0 <= i < len l ->
  array_set (dense l) i v = dense (<[Z.to_nat i := v]> l).
Proof.
  intros Hi. unfold array_set, dense, len in *. simpl.
  rewrite length_fmap.
  destruct (Z.leb_spec 0 i); [|lia].
  destruct (Z.ltb_spec i (Z.of_nat (length l))); [|lia].
  simpl. by rewrite list_fmap_insert.
Qed.

Lemma fill_array_within n l v i e :
  0 <= i -> e = i + Z.of_nat n -> e <= len l ->
  fill_array n (dense l) v i e =
  dense (take (Z.to_nat i) l ++ replicate n v
           ++ drop (Z.to_nat i + n) l).
Proof.
  revert l i. induction n as [|n IH]; intros l i Hi He Hn; cbn [fill_array].
  - simpl. by rewrite Nat.add_0_r, take_drop.
  - destruct (Z.ltb_spec i e); [|lia].
    unfold len in *. rewrite array_set_dense by (unfold len; lia).
    rewrite IH by (unfold len; rewrite ?length_insert; lia).
    f_equal.
    replace (Z.to_nat (i + 1)) with (S (Z.to_nat i)) by lia.
    rewrite (take_S_r _ _ v)
      by (apply list_lookup_insert_eq; lia).
    rewrite take_insert_ge by lia.
    rewrite drop_insert_lt by lia.
    rewrite <- !app_assoc. simpl. by rewrite Nat.add_succ_r.
Qed.

(** *** Writes at arbitrary indices *)

Lemma array_get_slot a j :
  0 <= j < len (elems a) ->
  array_get a j =
  match elems a !! Z.to_nat j with
  | Some (Some x) => Val x
  | _ => undefined
  end.
Proof.
  intros Hj. unfold array_get, get, len in *.
  destruct (Z.ltb_spec j 0); [lia|].
  destruct (elems a !! Z.to_nat j) as [[x|]|] eqn:Hx; try done.
  apply lookup_ge_None in Hx. lia.
Qed.

Lemma array_get_dense l j : array_get (dense l) j = get l j.
Proof.
  unfold array_get, dense, get. simpl.
  destruct (j <? 0); [done|].
  rewrite list_lookup_fmap. by destruct (l !! Z.to_nat j).
Qed.

Lemma get_beyond l j : len l <= j -> get l j = undefined.
Proof.
  intros Hj. unfold get, len in *. destruct (j <? 0); [done|].
  rewrite (proj2 (lookup_ge_None l (Z.to_nat j))); [done|lia].
Qed.

(** One write [a[i] = v] with [i] below the largest array length: the
    length afterwards and what each slot reads. *)
Lemma array_set_read a i v j :
  i < max_length ->
  len (elems (array_set a i v)) =
    (if 0 <=? i then Z.max (len (elems a)) (i + 1) else len (elems a)) /\
  (0 <= j < len (elems (array_set a i v)) ->
   array_get (array_set a i v) j =
     if j =? i then Val v
     else if j <? len (elems a) then array_get a j else undefined).
Proof.
  intros Hi. unfold array_set. pose proof (len_nonneg (elems a)).
  destruct (Z.leb_spec 0 i); destruct (Z.ltb_spec i (len (elems a)));
    destruct (Z.leb_spec (len (elems a)) i);
    destruct (Z.ltb_spec i max_length); cbn [andb]; try lia.
  - (* inside the array *)
    split; [unfold len in *; cbn [elems]; rewrite length_insert; lia|].
    intros Hj. rewrite array_get_slot by done. cbn [elems] in *.
    unfold len in *. rewrite length_insert in Hj.
    destruct (Z.eqb_spec j i) as [->|Hne].
    + by rewrite list_lookup_insert_eq by lia.
    + rewrite list_lookup_insert_ne by lia.
      destruct (Z.ltb_spec j (Z.of_nat (length (elems a)))); [|lia].
      by rewrite array_get_slot by (unfold len; lia).
  - (* at or past the length *)
    assert (len (elems a ++ replicate (Z.to_nat (i - len (elems a))) None
                   ++ [Some v]) = i + 1) as Hlen.
    { unfold len in *. rewrite !length_app, length_replicate. simpl. lia. }
    split; [cbn [elems]; lia|].
    cbn [elems]. rewrite Hlen. intros Hj.
    rewrite array_get_slot by (cbn [elems]; lia). cbn [elems].
    unfold len in *.
    destruct (Z.eqb_spec j i) as [->|Hne].
    + rewrite app_assoc, lookup_app_r
        by (rewrite length_app, length_replicate; lia).
      rewrite length_app, length_replicate.
      by replace (Z.to_nat i - _)%nat with 0%nat by lia.
    + destruct (Z.ltb_spec j (Z.of_nat (length (elems a)))).
      * rewrite lookup_app_l by lia.
        by rewrite array_get_slot by (unfold len; lia).
      * rewrite lookup_app_r by lia.
        rewrite lookup_app_l by (rewrite length_replicate; lia).
        by rewrite lookup_replicate_2 by lia.
  - (* not an array index *)
    split; [done|]. cbn [elems]. intros Hj.
    destruct (Z.eqb_spec j i); [lia|].
    destruct (Z.ltb_spec j (len (elems a))); [|lia].
    by rewrite !array_get_slot by done.
Qed.

(** The whole loop, started at [i] on the array [a]. *)
Lemma fill_array_read n a v i e :
  n = Z.to_nat (e - i) -> e <= max_length ->
  len (elems (fill_array n a v i e)) =
    (if Z.max 0 i <? e then Z.max (len (elems a)) e else len (elems a)) /\
  (forall j,
      0 <= j < len (elems (fill_array n a v i e)) ->
      array_get (fill_array n a v i e) j =
        if (i <=? j) && (j <? e) then Val v
        else if j <? len (elems a) then array_get a j else undefined).
Proof.
  revert a i. induction n as [|n IH]; intros a i Hn He; cbn [fill_array].
  - destruct (Z.ltb_spec (Z.max 0 i) e); [lia|]. split; [done|].
    intros j Hj.
    destruct (Z.leb_spec i j); destruct (Z.ltb_spec j e);
      destruct (Z.ltb_spec j (len (elems a))); cbn [andb]; (done || lia).
  - destruct (Z.ltb_spec i e); [|lia].
    destruct (IH (array_set a i v) (i + 1) ltac:(lia) He) as [Hlen Hget].
    destruct (array_set_read a i v 0 ltac:(lia)) as [Hlen1 _].
    split.
    + rewrite Hlen, Hlen1.
      destruct (Z.leb_spec 0 i); destruct (Z.ltb_spec (Z.max 0 (i + 1)) e);
        destruct (Z.ltb_spec (Z.max 0 i) e); lia.
    + intros j Hj. rewrite Hget by done.
      destruct (array_set_read a i v j ltac:(lia)) as [_ Hget1].
      rewrite Hlen, Hlen1 in Hj. rewrite Hlen1.
      destruct (Z.leb_spec (i + 1) j); destruct (Z.ltb_spec j e);
        destruct (Z.leb_spec i j); cbn [andb]; try (done || lia);
        destruct (Z.leb_spec 0 i);
        destruct (Z.ltb_spec j (Z.max (len (elems a)) (i + 1)));
        destruct (Z.ltb_spec j (len (elems a))); try lia;
        rewrite ?Hget1 by lia;
        destruct (Z.eqb_spec j i); try lia;
        destruct (Z.ltb_spec j (len (elems a))); (done || lia).
Qed.

End FillFacts.

(** C6: for in-bounds indices [start <= end], [fill] returns a reference
    that was not allocated before, to the array equal to the input with the
    positions [start, end) replaced by the value; every array that existed
    before the call, the input among them, is left as it was.  In
    particular [fill([4, 6, 8, 10], "*", 1, 3)] is [[4, "*", "*", 10]] and
    the input still is [[4, 6, 8, 10]]. *)
Theorem fill_returns_new_array :
  (forall (T : Type) (h : gmap loc (jsarray T)) (collection : loc)
          (seq : list T) (v : T) (startIndex endIndex : Z),
      h !! collection = Some (dense seq) ->
      0 <= startIndex <= endIndex ->
      endIndex <= len seq ->
      exists result h',
        Array02.fill h collection v startIndex endIndex = Some (result, h') /\
        h !! result = None /\
        h' !! result =
          Some (dense (take (Z.to_nat startIndex) seq
                         ++ replicate (Z.to_nat (endIndex - startIndex)) v
                         ++ drop (Z.to_nat endIndex) seq)) /\
        h' !! collection = Some (dense seq) /\
        (forall l, l <> result -> h' !! l = h !! l)) /\
  (exists result h',
      Array02.fill (heap_of [Num 4; Num 6; Num 8; Num 10]) 0%nat (Str "*")
                   1 3 = Some (result, h') /\
      h' !! result = Some (dense [Num 4; Str "*"; Str "*"; Num 10]) /\
      h' !! 0%nat = Some (dense [Num 4; Num 6; Num 8; Num 10])).
Proof.
  split.
  - intros T h c seq v s e Hc Hse He.
    eexists (fresh (dom h)), _. split; [by apply fill_unfold|].
    pose proof (fresh_unallocated h) as Hfresh.
    split; [done|]. split; [|split].
    + rewrite lookup_insert_eq. f_equal.
      rewrite (fill_array_within _ _ _ _ e) by lia.
      do 4 f_equal. lia.
    + rewrite lookup_insert_ne; [done|]. intros Heq. congruence.
    + intros l Hl. by rewrite lookup_insert_ne.
  - eexists _, _. split; [reflexivity|]. split; reflexivity.
Qed.

Lemma fill_returns_new_array_witness :
  exists result h',
    Array02.fill (heap_of [4; 6; 8; 10]) 0%nat 7 1 3
      = Some (result, h') /\
    (heap_of [4; 6; 8; 10]) !! result = None /\
    h' !! result = Some (dense [4; 7; 7; 10]) /\
    h' !! 0%nat = Some (dense [4; 6; 8; 10]) /\
    (forall l, l <> result ->
               h' !! l = (heap_of [4; 6; 8; 10]) !! l).
Proof.
  apply (proj1 fill_returns_new_array Z
           (heap_of [4; 6; 8; 10]) 0%nat [4; 6; 8; 10] 7 1 3).
  - reflexivity.
  - lia.
  - unfold len. simpl. lia.
Defined.

(** C5 as the code has it: [fill] never rejects a call, and it does not
    clamp [end] to the length.  For a [start] of at least [-2^53] and an
    [end] up to the largest array length [2^32 - 1] the result is a new
    array whose length is the larger of the input length and [end] when
    some index from [max(0, start)] up to [end] is written, and the input
    length otherwise; a position [j] of the result, [0 <= j < length], reads
    the value when [start <= j < end], and otherwise what the input reads
    there, which is [undefined] past the input's end.  The input array is
    left as it was.  Nothing is said about keys below 0. *)
Theorem fill_grows_past_the_end {T : Type} (h : gmap loc (jsarray T))
    (collection : loc) (seq : list T) (v : T) (startIndex endIndex : Z) :
  h !! collection = Some (dense seq) ->
  - exact_limit <= startIndex ->
  endIndex <= max_length ->
  exists result a,
    Array02.fill h collection v startIndex endIndex =
      Some (result, <[result := a]> h) /\
    h !! result = None /\
    len (elems a) =
      (if Z.max 0 startIndex <? endIndex then Z.max (len seq) endIndex
       else len seq) /\
    (forall j, 0 <= j < len (elems a) ->
               array_get a j =
                 if (startIndex <=? j) && (j <? endIndex) then Val v
                 else get seq j).
Proof.
  intros Hc _ He.
  eexists (fresh (dom h)), _. split; [by apply fill_unfold|].
  split; [apply fresh_unallocated|].
  destruct (fill_array_read (Z.to_nat (endIndex - startIndex)) (dense seq) v
              startIndex endIndex eq_refl He) as [Hlen Hget].
  assert (len (elems (dense seq)) = len seq) as Hdense
      by (unfold dense, len; simpl; by rewrite length_fmap).
  rewrite Hdense in *. split; [done|].
  intros j Hj. rewrite Hget by done.
  destruct ((startIndex <=? j) && (j <? endIndex)); [done|].
  destruct (Z.ltb_spec j (len seq)).
  - apply array_get_dense.
  - by rewrite get_beyond.
Qed.

Lemma fill_grows_past_the_end_witness :
  exists result a,
    Array02.fill (heap_of [1; 2]) 0%nat 9 3 5 =
      Some (result, <[result := a]> (heap_of [1; 2])) /\
    (heap_of [1; 2]) !! result = None /\
    len (elems a) = 5 /\
    (forall j, 0 <= j < len (elems a) ->
               array_get a j =
                 if (3 <=? j) && (j <? 5) then Val 9 else get [1; 2] j).
Proof.
  apply (fill_grows_past_the_end (heap_of [1; 2]) 0%nat [1; 2]
           9 3 5).
  - reflexivity.
  - unfold exact_limit. lia.
  - unfold max_length. lia.
Defined.

(** C5, counterexample: filling [[1, 2]] from 0 to 4 is not rejected and is
    not the result for the clamped indices 0 and 2: the result has four
    elements, the clamped call gives two. *)
Lemma fill_neither_clamps_nor_rejects :
  Array02.fill (heap_of [1; 2]) 0%nat 9 0 4 =
    Some (1%nat, <[ 1%nat := dense [9; 9; 9; 9] ]>
                   (heap_of [1; 2])) /\
  Array02.fill (heap_of [1; 2]) 0%nat 9 0 2 =
    Some (1%nat, <[ 1%nat := dense [9; 9] ]> (heap_of [1; 2])) /\
  Array02.fill (heap_of [1; 2]) 0%nat 9 0 4 <>
  Array02.fill (heap_of [1; 2]) 0%nat 9 0 2.
Proof.
  split; [reflexivity|]. split; [reflexivity|].
  intros Heq. vm_compute in Heq. discriminate Heq.
Qed.

(** * Further properties of the sources *)

(** ** compact *)

Section CompactFacts.

Lemma filter_scan_item (whole rest : list any) (i : Z) :
  filter_scan (fun item _ _ => item) whole rest i = List.filter ToBoolean rest.
Proof.
  revert i. induction rest as [|v rest IH]; intros i; simpl; [done|].
  rewrite IH. by destruct (ToBoolean v).
Qed.

Lemma compact_filter (input : list any) :
  Array02.compact input = List.filter ToBoolean input.
Proof. apply filter_scan_item. Qed.

Lemma filter_all_true (l : list any) :
  List.filter ToBoolean l = l <-> Forall (fun v => ToBoolean v = true) l.
Proof.
  induction l as [|v l IH]; simpl.
  - split; [constructor|done].
  - destruct (ToBoolean v) eqn:Hv.
    + split.
      * intros Heq. injection Heq as Heq. constructor; [done|by apply IH].
      * intros Hall. inversion Hall; subst. f_equal. by apply IH.
    + split.
      * intros Heq. apply (f_equal length) in Heq.
        pose proof (List.filter_length_le ToBoolean l). simpl in Heq. lia.
      * intros Hall. inversion Hall; subst. congruence.
Qed.

End CompactFacts.

(** X1: [compact] returns the truthy elements of its input, in their order
    and as often as they occur; the result holds none of [undefined],
    [null], [false], [0], [-0], [NaN] and the empty string. *)
Theorem compact_keeps_the_truthy (input : list any) :
  Array02.compact input = List.filter ToBoolean input /\
  (forall v, In v (Array02.compact input) <->
             In v input /\ ToBoolean v = true) /\
  (forall v,
      In v [AUndefined; ANull; ABoolean false; ANumber (Int 0);
            ANumber NegZero; ANumber NaN; AString EmptyString] ->
      ~ In v (Array02.compact input)).
Proof.
  rewrite compact_filter. split; [done|]. split.
  - intros v. apply List.filter_In.
  - intros v Hv Hin. apply List.filter_In in Hin as [_ Htrue].
    simpl in Hv. intuition (subst; discriminate).
Qed.

(** X2: [compact] is idempotent, and it returns its input unchanged exactly
    when every element of the input is truthy. *)
Theorem compact_idempotent (input : list any) :
  Array02.compact (Array02.compact input) = Array02.compact input /\
  (Array02.compact input = input <->
   Forall (fun v => ToBoolean v = true) input).
Proof.
  rewrite !compact_filter. split; [|apply filter_all_true].
  apply filter_all_true, Forall_forall. intros v Hv.
  apply list_elem_of_In, List.filter_In in Hv. tauto.
Qed.

(** ** zip *)

Section ZipFacts.
Context {T U V : Type}.

Lemma zip_loop_entries (n : nat) (array1 : list T) (array2 : list U)
    (array3 : list V) (i : Z)
    (result : list (list (jsval (Array02.union3 T U V)))) :
  0 <= i -> n = Z.to_nat (len array1 - i) ->
  Array02.zip_loop n array1 array2 array3 i result =
  result ++ ((fun k : nat => zip_entry array1 array2 array3 (i + Z.of_nat k))
               <$> seq 0 n).
Proof.
  revert i result. induction n as [|n IH]; intros i result Hi Hn;
    cbn [Array02.zip_loop].
  - simpl. by rewrite app_nil_r.
  - destruct (Z.ltb_spec i (len array1)); [|lia].
    rewrite IH by lia. unfold array_push. rewrite <- app_assoc.
    f_equal. cbn [seq fmap list_fmap]. rewrite Z.add_0_r. cbn [app].
    f_equal. rewrite <- fmap_S_seq, <- list_fmap_compose.
    apply list_fmap_ext. intros _ k _. simpl. f_equal. lia.
Qed.

Lemma zip_entries (array1 : list T) (array2 : list U) (array3 : list V) :
  Array02.zip array1 array2 array3 =
  (fun k : nat => zip_entry array1 array2 array3 (Z.of_nat k))
    <$> seq 0 (length array1).
Proof.
  unfold Array02.zip. rewrite zip_loop_entries by (unfold len; lia).
  unfold len. rewrite Nat2Z.id. done.
Qed.

Lemma get_nat {A : Type} (a : list A) (k : nat) :
  get a (Z.of_nat k) =
  match a !! k with Some x => Val x | None => undefined end.
Proof.
  unfold get. destruct (Z.ltb_spec (Z.of_nat k) 0); [lia|].
  by rewrite Nat2Z.id.
Qed.

End ZipFacts.

(** X3: [zip] returns as many entries as [array1] has elements, whatever
    the lengths of the other two arrays; entry [i] is the three-element
    array [[array1[i], array2[i], array3[i]]], in which a read past the end
    of a shorter array is [undefined]. *)
Theorem zip_entry_by_entry {T U V : Type} (array1 : list T)
    (array2 : list U) (array3 : list V) :
  length (Array02.zip array1 array2 array3) = length array1 /\
  (forall i : nat,
      (i < length array1)%nat ->
      Array02.zip array1 array2 array3 !! i =
      Some [widen Array02.In1 (get array1 (Z.of_nat i));
            widen Array02.In2 (get array2 (Z.of_nat i));
            widen Array02.In3 (get array3 (Z.of_nat i))]) /\
  (forall (i : nat) entry,
      Array02.zip array1 array2 array3 !! i = Some entry ->
      (length array2 <= i)%nat -> entry !! 1%nat = Some undefined).
Proof.
  rewrite zip_entries. split; [by rewrite length_fmap, length_seq|]. split.
  - intros i Hi. rewrite list_lookup_fmap, lookup_seq_lt by done. done.
  - intros i entry Hentry Hi. rewrite list_lookup_fmap in Hentry.
    destruct (seq 0 (length array1) !! i) as [k|] eqn:Hk; [|done].
    apply lookup_seq in Hk as [-> _]. simpl in Hentry.
    injection Hentry as <-. unfold zip_entry. simpl.
    rewrite get_nat, (proj2 (lookup_ge_None array2 i)); done.
Qed.

(** X4: the first elements of the entries of [zip] are the elements of
    [array1]; when [array2] is at least as long as [array1] the second
    elements are the first [array1.length] elements of [array2], and
    likewise for [array3] and the third elements. *)
Theorem zip_columns {T U V : Type} (array1 : list T) (array2 : list U)
    (array3 : list V) :
  (fun entry => entry !! 0%nat) <$> Array02.zip array1 array2 array3 =
    (fun x => Some (Val (Array02.In1 x))) <$> array1 /\
  ((length array1 <= length array2)%nat ->
   (fun entry => entry !! 1%nat) <$> Array02.zip array1 array2 array3 =
     (fun y => Some (Val (Array02.In2 y))) <$> take (length array1) array2) /\
  ((length array1 <= length array3)%nat ->
   (fun entry => entry !! 2%nat) <$> Array02.zip array1 array2 array3 =
     (fun z => Some (Val (Array02.In3 z))) <$> take (length array1) array3).
Proof.
  rewrite zip_entries. repeat split; intros;
    apply list_eq; intros i;
    rewrite <- list_fmap_compose, !list_lookup_fmap;
    destruct (decide (i < length array1)%nat) as [Hi|Hi].
  - rewrite lookup_seq_lt by done. simpl. rewrite get_nat.
    destruct (array1 !! i) as [x|] eqn:Hx; [done|].
    apply lookup_ge_None in Hx. lia.
  - rewrite lookup_seq_ge by lia.
    by rewrite (proj2 (lookup_ge_None array1 i)) by lia.
  - rewrite lookup_seq_lt by done. simpl. rewrite get_nat.
    rewrite lookup_take_lt by done.
    destruct (array2 !! i) as [y|] eqn:Hy; [done|].
    apply lookup_ge_None in Hy. lia.
  - rewrite lookup_seq_ge by lia.
    by rewrite lookup_take_ge by lia.
  - rewrite lookup_seq_lt by done. simpl. rewrite get_nat.
    rewrite lookup_take_lt by done.
    destruct (array3 !! i) as [z|] eqn:Hz; [done|].
    apply lookup_ge_None in Hz. lia.
  - rewrite lookup_seq_ge by lia.
    by rewrite lookup_take_ge by lia.
Qed.

(** ** findIndex and findLastIndex *)

Section SearchFacts.
Context {T : Type}.
Implicit Types (a whole rest collection : list T) (p : @callback T).
Implicit Types (i s : Z) (k j : nat).

Lemma findIndex_scan_cases p whole rest i :
  (findIndex_scan p whole rest i = -1 /\
   forall k x, rest !! k = Some x -> p x (i + Z.of_nat k) whole = false) \/
  (exists k x,
      findIndex_scan p whole rest i = i + Z.of_nat k /\
      rest !! k = Some x /\ p x (i + Z.of_nat k) whole = true /\
      forall j y, (j < k)%nat -> rest !! j = Some y ->
                  p y (i + Z.of_nat j) whole = false).
Proof.
  revert i. induction rest as [|y rest IH]; intros i.
  - left. split; [done|]. intros k x Hk. done.
  - simpl. destruct (p y i whole) eqn:Hy.
    + right. exists 0%nat, y. rewrite Z.add_0_r.
      repeat split; try done. intros j z Hj. lia.
    + destruct (IH (i + 1)) as [[Hnone Hall]|(k & x & Hr & Hk & Hx & Hbefore)].
      * left. split; [done|]. intros [|k] x Hk; simpl in Hk.
        -- injection Hk as <-. by rewrite Z.add_0_r.
        -- replace (i + Z.of_nat (S k)) with (i + 1 + Z.of_nat k) by lia.
           by apply Hall.
      * right. exists (S k), x.
        replace (i + Z.of_nat (S k)) with (i + 1 + Z.of_nat k) by lia.
        repeat split; try done. intros [|j] z Hj Hz; simpl in Hz.
        -- injection Hz as <-. by rewrite Z.add_0_r.
        -- replace (i + Z.of_nat (S j)) with (i + 1 + Z.of_nat j) by lia.
           apply Hbefore; [lia|done].
Qed.

Lemma findIndex_cases a p :
  (Js.findIndex a p = -1 /\
   forall k x, a !! k = Some x -> p x (Z.of_nat k) a = false) \/
  (exists k x,
      Js.findIndex a p = Z.of_nat k /\
      a !! k = Some x /\ p x (Z.of_nat k) a = true /\
      forall j y, (j < k)%nat -> a !! j = Some y ->
                  p y (Z.of_nat j) a = false).
Proof. apply (findIndex_scan_cases p a a 0). Qed.

Lemma findLastIndex_loop_cases (n : nat) collection
    (predicate : jsval T -> Z -> list T -> bool) i :
  n = Z.to_nat (i + 1) ->
  (Array02.findLastIndex_loop n collection predicate i = -1 /\
   forall j : Z, 0 <= j <= i ->
                 predicate (get collection j) j collection = false) \/
  (0 <= Array02.findLastIndex_loop n collection predicate i <= i /\
   predicate
     (get collection (Array02.findLastIndex_loop n collection predicate i))
     (Array02.findLastIndex_loop n collection predicate i) collection
   = true /\
   forall j : Z,
     Array02.findLastIndex_loop n collection predicate i < j <= i ->
     predicate (get collection j) j collection = false).
Proof.
  revert i. induction n as [|n IH]; intros i Hn;
    cbn [Array02.findLastIndex_loop].
  - left. split; [done|]. intros j Hj. lia.
  - destruct (Z.leb_spec 0 i); [|lia].
    destruct (predicate (get collection i) i collection) eqn:Hi.
    + right. split; [lia|]. split; [done|]. intros j Hj. lia.
    + destruct (IH (i - 1) ltac:(lia)) as [[Hnone Hall]|(Hr & Hp & Hafter)].
      * left. split; [done|]. intros j Hj.
        destruct (Z.eq_dec j i) as [->|]; [done|]. apply Hall. lia.
      * right. split; [lia|]. split; [done|]. intros j Hj.
        destruct (Z.eq_dec j i) as [->|]; [done|]. apply Hafter. lia.
Qed.

Lemma findLastIndex_cases collection
    (predicate : jsval T -> Z -> list T -> bool) (startIndex : option Z) :
  (Array02.findLastIndex collection predicate startIndex = -1 /\
   forall j : Z, 0 <= j <= default (len collection - 1) startIndex ->
                 predicate (get collection j) j collection = false) \/
  (0 <= Array02.findLastIndex collection predicate startIndex
     <= default (len collection - 1) startIndex /\
   predicate
     (get collection (Array02.findLastIndex collection predicate startIndex))
     (Array02.findLastIndex collection predicate startIndex) collection
   = true /\
   forall j : Z,
     Array02.findLastIndex collection predicate startIndex < j
       <= default (len collection - 1) startIndex ->
     predicate (get collection j) j collection = false).
Proof. unfold Array02.findLastIndex. by apply findLastIndex_loop_cases. Qed.

Lemma findIndex_whole_cases collection p :
  (Array02.findIndex collection p None = -1 /\
   forall k x, collection !! k = Some x ->
               p x (Z.of_nat k) collection = false) \/
  (exists k x,
      Array02.findIndex collection p None = Z.of_nat k /\
      collection !! k = Some x /\
      p x (Z.of_nat k) collection = true /\
      forall j y, (j < k)%nat -> collection !! j = Some y ->
                  p y (Z.of_nat j) collection = false).
Proof.
  unfold Array02.findIndex. cbn [default]. rewrite slice_from by lia.
  change (drop (Z.to_nat 0) collection) with collection.
  destruct (findIndex_cases collection p)
    as [[Hnone Hall]|(k & x & Hr & Hk & Hx & Hbefore)].
  - left. by rewrite Hnone.
  - right. exists k, x. rewrite Hr.
    destruct (Z.eqb_spec (Z.of_nat k) (-1)); [lia|done].
Qed.

End SearchFacts.

(** X5: for a [startIndex] (default: the last index) of at most [2^53],
    [findLastIndex] returns the highest index, from [startIndex] down to 0,
    at which the predicate holds for [(collection[i], i, collection)], and
    -1 exactly when it holds at none of them; an index past the end is
    tried with the value [undefined]. *)
Theorem findLastIndex_highest_match {T : Type} (collection : list T)
    (predicate : jsval T -> Z -> list T -> bool) (startIndex : option Z) :
  default (len collection - 1) startIndex <= exact_limit ->
  (Array02.findLastIndex collection predicate startIndex = -1 /\
   forall j : Z, 0 <= j <= default (len collection - 1) startIndex ->
                 predicate (get collection j) j collection = false) \/
  (0 <= Array02.findLastIndex collection predicate startIndex
     <= default (len collection - 1) startIndex /\
   predicate
     (get collection (Array02.findLastIndex collection predicate startIndex))
     (Array02.findLastIndex collection predicate startIndex) collection
   = true /\
   forall j : Z,
     Array02.findLastIndex collection predicate startIndex < j
       <= default (len collection - 1) startIndex ->
     predicate (get collection j) j collection = false).
Proof. intros _. apply findLastIndex_cases. Qed.

Lemma findLastIndex_highest_match_witness :
  (Array02.findLastIndex [4; 6; 8; 6; 10]
     (fun v _ _ => match v with Val x => x =? 6 | _ => false end) (Some 7)
   = -1 /\
   forall j : Z, 0 <= j <= 7 ->
     match get [4; 6; 8; 6; 10] j with Val x => x =? 6 | _ => false end
     = false) \/
  (0 <= Array02.findLastIndex [4; 6; 8; 6; 10]
          (fun v _ _ => match v with Val x => x =? 6 | _ => false end)
          (Some 7) <= 7 /\
   match get [4; 6; 8; 6; 10]
           (Array02.findLastIndex [4; 6; 8; 6; 10]
              (fun v _ _ => match v with Val x => x =? 6 | _ => false end)
              (Some 7))
   with Val x => x =? 6 | _ => false end = true /\
   forall j : Z,
     Array02.findLastIndex [4; 6; 8; 6; 10]
       (fun v _ _ => match v with Val x => x =? 6 | _ => false end)
       (Some 7) < j <= 7 ->
     match get [4; 6; 8; 6; 10] j with Val x => x =? 6 | _ => false end
     = false).
Proof.
  apply (findLastIndex_highest_match [4; 6; 8; 6; 10]
           (fun v _ _ => match v with Val x => x =? 6 | _ => false end)
           (Some 7)).
  unfold exact_limit. simpl. lia.
Defined.

(** X6: without a [startIndex], [findIndex] runs the predicate on
    [(collection[i], i, collection)] itself: it returns the lowest index at
    which the predicate holds, and -1 exactly when it holds nowhere. *)
Theorem findIndex_lowest_match {T : Type} (collection : list T)
    (predicate : @callback T) :
  (Array02.findIndex collection predicate None = -1 /\
   forall (k : nat) x, collection !! k = Some x ->
                       predicate x (Z.of_nat k) collection = false) \/
  (exists (k : nat) x,
      Array02.findIndex collection predicate None = Z.of_nat k /\
      collection !! k = Some x /\
      predicate x (Z.of_nat k) collection = true /\
      forall (j : nat) y, (j < k)%nat -> collection !! j = Some y ->
                          predicate y (Z.of_nat j) collection = false).
Proof. apply findIndex_whole_cases. Qed.

(** X7: for a predicate that only reads the value and a [startIndex >= 0],
    [findIndex] returns the lowest index at or after [startIndex] whose
    element satisfies the predicate, and -1 exactly when there is none. *)
Theorem findIndex_value_predicate {T : Type} (collection : list T)
    (q : T -> bool) (startIndex : Z) :
  0 <= startIndex ->
  (Array02.findIndex collection (fun v _ _ => q v) (Some startIndex) = -1 /\
   forall (j : nat) y, (Z.to_nat startIndex <= j)%nat ->
                       collection !! j = Some y -> q y = false) \/
  (exists (k : nat) x,
      Array02.findIndex collection (fun v _ _ => q v) (Some startIndex)
        = Z.of_nat k /\
      startIndex <= Z.of_nat k /\
      collection !! k = Some x /\ q x = true /\
      forall (j : nat) y, (Z.to_nat startIndex <= j < k)%nat ->
                          collection !! j = Some y -> q y = false).
Proof.
  intros Hs. unfold Array02.findIndex. cbn [from_option id].
  rewrite slice_from by lia.
  destruct (findIndex_cases (drop (Z.to_nat startIndex) collection)
              (fun v _ _ => q v))
    as [[Hnone Hall]|(k & x & Hr & Hk & Hx & Hbefore)].
  - left. rewrite Hnone. split; [done|]. intros j y Hj Hy.
    apply (Hall (j - Z.to_nat startIndex)%nat y).
    rewrite lookup_drop. rewrite <- Hy. f_equal. lia.
  - right. exists (Z.to_nat startIndex + k)%nat, x. rewrite Hr.
    rewrite lookup_drop in Hk.
    destruct (Z.eqb_spec (Z.of_nat k) (-1)); [lia|].
    split; [lia|]. split; [lia|]. split; [done|]. split; [done|].
    intros j y Hj Hy.
    apply (Hbefore (j - Z.to_nat startIndex)%nat y); [lia|].
    rewrite lookup_drop. rewrite <- Hy. f_equal. lia.
Qed.

Lemma findIndex_value_predicate_witness :
  (Array02.findIndex [4; 6; 6; 8] (fun v _ _ => v =? 6) (Some 2) = -1 /\
   forall (j : nat) y, (Z.to_nat 2 <= j)%nat ->
                       [4; 6; 6; 8] !! j = Some y -> (y =? 6) = false) \/
  (exists (k : nat) x,
      Array02.findIndex [4; 6; 6; 8] (fun v _ _ => v =? 6) (Some 2)
        = Z.of_nat k /\
      2 <= Z.of_nat k /\
      [4; 6; 6; 8] !! k = Some x /\ (x =? 6) = true /\
      forall (j : nat) y, (Z.to_nat 2 <= j < k)%nat ->
                          [4; 6; 6; 8] !! j = Some y -> (y =? 6) = false).
Proof.
  apply (findIndex_value_predicate [4; 6; 6; 8] (fun v => v =? 6) 2). lia.
Defined.

(** X8: for a predicate on values, searching the whole collection forwards
    with [findIndex] and backwards with [findLastIndex] agree on whether
    there is a match, and the first match is never after the last one. *)
Theorem findIndex_before_findLastIndex {T : Type} (collection : list T)
    (q : T -> bool) :
  (Array02.findIndex collection (fun v _ _ => q v) None = -1 <->
   Array02.findLastIndex collection
     (fun v _ _ => match v with Val x => q x | _ => false end) None = -1) /\
  Array02.findIndex collection (fun v _ _ => q v) None <=
  Array02.findLastIndex collection
    (fun v _ _ => match v with Val x => q x | _ => false end) None.
Proof.
  set (p := fun (v : jsval T) (_ : Z) (_ : list T) =>
              match v with Val x => q x | _ => false end).
  assert (forall (k : nat) x, collection !! k = Some x ->
            p (get collection (Z.of_nat k)) (Z.of_nat k) collection = q x)
    as Hp by (intros k x Hk; unfold p; by rewrite get_nat, Hk).
  destruct (findIndex_whole_cases collection (fun v _ _ => q v))
    as [[Hnone Hall]|(k & x & Hr & Hk & Hx & Hbefore)];
    destruct (findLastIndex_cases collection p None)
      as [[Hnone' Hall']|(Hr' & Hp' & Hafter)];
    cbn [from_option id] in *.
  - rewrite Hnone, Hnone'. split; [done|lia].
  - exfalso. revert Hr' Hp'.
    generalize (Array02.findLastIndex collection p None). intros r Hr' Hp'.
    unfold get in Hp'. destruct (Z.ltb_spec r 0); [lia|].
    destruct (collection !! Z.to_nat r) as [y|] eqn:Hy;
      [|unfold p in Hp'; done].
    unfold p in Hp'. rewrite (Hall _ _ Hy) in Hp'. done.
  - exfalso. pose proof (lookup_lt_Some _ _ _ Hk) as Hlt.
    specialize (Hall' (Z.of_nat k) ltac:(unfold len; lia)).
    rewrite (Hp k x Hk) in Hall'. congruence.
  - split; [lia|]. rewrite Hr.
    destruct (Z.le_gt_cases (Z.of_nat k)
                (Array02.findLastIndex collection p None)) as [|Hgt]; [done|].
    pose proof (lookup_lt_Some _ _ _ Hk) as Hlt.
    specialize (Hafter (Z.of_nat k) ltac:(unfold len; lia)).
    rewrite (Hp k x Hk) in Hafter. congruence.
Qed.

(** ** head, initial and last *)

Section EndsFacts.
Context {T : Type}.
Implicit Types (input l : list T).

Lemma initial_long input :
  2 <= len input ->
  Array02.initial input = take (length input - 1) input.
Proof.
  intros Hlen. unfold Array02.initial. cbv zeta.
  rewrite slice_nonneg by lia.
  rewrite (Z.min_l 0) by lia. rewrite Z.min_l by lia.
  unfold len in *. simpl. f_equal. lia.
Qed.

Lemma initial_short input :
  len input <= 1 -> Array02.initial input = input.
Proof.
  intros Hlen. unfold Array02.initial. cbv zeta.
  pose proof (len_nonneg input).
  rewrite slice_nonneg by lia.
  rewrite (Z.min_l 0) by lia. rewrite Z.min_r by lia.
  unfold len in *. simpl. apply take_ge. lia.
Qed.

Lemma last_snoc_val l x : Array02.last (l ++ [x]) = Val x.
Proof.
  unfold Array02.last, len. cbv zeta. rewrite length_app. simpl.
  destruct (Z.eqb_spec (Z.of_nat (length l + 1)) 0); [lia|].
  replace (Z.of_nat (length l + 1) - 1) with (Z.of_nat (length l)) by lia.
  rewrite get_nat. by rewrite list_lookup_middle.
Qed.

End EndsFacts.

(** X9: [initial] removes the last element of an array of two or more
    elements, and returns an array of one element (or none) unchanged: the
    single element is not removed. *)
Theorem initial_keeps_single_element {T : Type} (input : list T) :
  (len input <= 1 -> Array02.initial input = input) /\
  (2 <= len input ->
   Array02.initial input = take (length input - 1) input /\
   len (Array02.initial input) = len input - 1).
Proof.
  split; [apply initial_short|]. intros Hlen.
  rewrite initial_long by done. split; [done|].
  unfold len in *. rewrite length_take. lia.
Qed.

(** X10: for an array of two or more elements, [last] returns its final
    element and [initial] followed by that element is the array again. *)
Theorem initial_then_last {T : Type} (input : list T) :
  2 <= len input ->
  exists x, Array02.last input = Val x /\
            Array02.initial input ++ [x] = input.
Proof.
  intros Hlen. rewrite initial_long by done.
  destruct input as [|y l _] using rev_ind; [unfold len in Hlen; simpl in Hlen; lia|].
  exists y. split; [apply last_snoc_val|].
  rewrite length_app. simpl.
  replace (length l + 1 - 1)%nat with (length l) by lia.
  by rewrite take_app_length.
Qed.

Lemma initial_then_last_witness :
  exists x, Array02.last [1; 2; 3] = Val x /\
            Array02.initial [1; 2; 3] ++ [x] = [1; 2; 3].
Proof. apply (initial_then_last [1; 2; 3]). unfold len. simpl. lia. Defined.

(** X11: [last] returns [undefined] for the empty array, and the final
    element for a non-empty array. *)
Theorem last_of_empty_and_nonempty {T : Type} (input : list T) :
  (input = [] -> Array02.last input = undefined) /\
  (forall l x, input = l ++ [x] -> Array02.last input = Val x).
Proof.
  split.
  - by intros ->.
  - intros l x ->. apply last_snoc_val.
Qed.



(** ** chunk: number and sizes of the groups, sizes below 1 *)





(** ** drop and dropRight: how they compose *)

(** X15: for a count [k >= 0], the first [k] elements of the input followed
    by [drop(input, k)] are the input again; [drop] leaves
    [max(length - k, 0)] elements. *)
Theorem drop_rebuilds_input {T : Type} (input : list T) (k : Z) :
  0 <= k ->
  take (Z.to_nat k) input ++ Array02.drop input (Some k) = input /\
  len (Array02.drop input (Some k)) = Z.max (len input - k) 0.
Proof.
  intros Hk. rewrite drop_spec by done. split; [apply take_drop|].
  unfold len. rewrite length_drop. lia.
Qed.

Lemma drop_rebuilds_input_witness :
  take (Z.to_nat 2) [1; 2; 3; 4] ++ Array02.drop [1; 2; 3; 4] (Some 2)
    = [1; 2; 3; 4] /\
  len (Array02.drop [1; 2; 3; 4] (Some 2)) = Z.max (len [1; 2; 3; 4] - 2) 0.
Proof. apply (drop_rebuilds_input [1; 2; 3; 4] 2). lia. Defined.

(** X16: for a count [k] between 0 and the length, [dropRight(input, k)]
    has [length - k] elements, and followed by
    [drop(input, length - k)] it is the input again. *)
Theorem dropRight_then_drop {T : Type} (input : list T) (k : Z) :
  0 <= k <= len input ->
  Array02.dropRight input (Some k)
    ++ Array02.drop input (Some (len input - k)) = input /\
  len (Array02.dropRight input (Some k)) = len input - k.
Proof.
  intros Hk. rewrite dropRight_within, drop_spec by lia.
  split; [apply take_drop|]. unfold len in *. rewrite length_take. lia.
Qed.

Lemma dropRight_then_drop_witness :
  Array02.dropRight [1; 2; 3; 4] (Some 1)
    ++ Array02.drop [1; 2; 3; 4] (Some (len [1; 2; 3; 4] - 1))
    = [1; 2; 3; 4] /\
  len (Array02.dropRight [1; 2; 3; 4] (Some 1)) = len [1; 2; 3; 4] - 1.
Proof.
  apply (dropRight_then_drop [1; 2; 3; 4] 1). unfold len. simpl. lia.
Defined.

(** X17: dropping [a] and then [b] elements from the front is dropping
    [a + b], for counts [a, b >= 0]; the same holds from the back as long as
    [a + b] does not exceed the length. *)
Theorem drop_twice {T : Type} (input : list T) (a b : Z) :
  0 <= a -> 0 <= b ->
  Array02.drop (Array02.drop input (Some a)) (Some b)
    = Array02.drop input (Some (a + b)) /\
  (a + b <= len input ->
   Array02.dropRight (Array02.dropRight input (Some a)) (Some b)
     = Array02.dropRight input (Some (a + b))).
Proof.
  intros Ha Hb. split.
  - rewrite !drop_spec by lia. rewrite drop_drop. f_equal. lia.
  - intros Hab.
    rewrite (dropRight_within input a), (dropRight_within input (a + b))
      by lia.
    rewrite dropRight_within
      by (unfold len in *; rewrite length_take; lia).
    unfold len in *. rewrite length_take, take_take. f_equal. lia.
Qed.

Lemma drop_twice_witness :
  Array02.drop (Array02.drop [1; 2; 3; 4] (Some 1)) (Some 2)
    = Array02.drop [1; 2; 3; 4] (Some (1 + 2)) /\
  (1 + 2 <= len [1; 2; 3; 4] ->
   Array02.dropRight (Array02.dropRight [1; 2; 3; 4] (Some 1)) (Some 2)
     = Array02.dropRight [1; 2; 3; 4] (Some (1 + 2))).
Proof. apply (drop_twice [1; 2; 3; 4] 1 2); lia. Defined.

(** X18: a negative count is not rejected: [drop(input, -k)] keeps only the
    last [k] elements (all of them when [k] exceeds the length), and
    [dropRight(input, -k)] returns the whole input. *)
Theorem drop_negative_count {T : Type} (input : list T) (k : Z) :
  0 < k ->
  Array02.drop input (Some (- k)) =
    drop (length input - Z.to_nat k) input /\
  Array02.dropRight input (Some (- k)) = input.
Proof.
  intros Hk. pose proof (len_nonneg input) as Hlen. split.
  - unfold Array02.drop, slice. cbn [from_option id].
    rewrite (relative_nonneg input (len input)) by done.
    rewrite Z.min_id. unfold relative.
    destruct (Z.ltb_spec (- k) 0); [|lia]. unfold len in *.
    rewrite take_ge by (rewrite length_drop; lia). f_equal. lia.
  - unfold Array02.dropRight. cbn [from_option id].
    rewrite slice_nonneg by lia.
    rewrite (Z.min_l 0), Z.min_r by lia. unfold len.
    apply take_ge. lia.
Qed.

Lemma drop_negative_count_witness :
  Array02.drop [1; 2; 3; 4] (Some (- 1)) =
    drop (length [1; 2; 3; 4] - Z.to_nat 1) [1; 2; 3; 4] /\
  Array02.dropRight [1; 2; 3; 4] (Some (- 1)) = [1; 2; 3; 4].
Proof. apply (drop_negative_count [1; 2; 3; 4] 1). lia. Defined.

(** ** dropWhile and dropRightWhile when the predicate fails somewhere *)

Lemma rev_lookup {A : Type} (l : list A) (i : nat) :
  (i < length l)%nat -> rev l !! i = l !! (length l - S i)%nat.
Proof. intros Hi. rewrite rev_alt. by apply reverse_lookup. Qed.

(** X19: when the predicate is false at index [k] and true at every index
    before it, [dropWhile] removes exactly the first [k] elements: the
    result starts with the first element on which the predicate fails and
    keeps everything after it. *)
Theorem dropWhile_drops_maximal_prefix {T : Type} (collection : list T)
    (predicate : @callback T) (k : nat) (x : T) :
  collection !! k = Some x ->
  predicate x (Z.of_nat k) collection = false ->
  (forall (j : nat) y, (j < k)%nat -> collection !! j = Some y ->
                       predicate y (Z.of_nat j) collection = true) ->
  Array02.dropWhile collection predicate = drop k collection /\
  Array02.head (Array02.dropWhile collection predicate) = Val x /\
  take k collection ++ Array02.dropWhile collection predicate = collection.
Proof.
  intros Hk Hx Hbefore.
  rewrite (dropWhile_first_false collection predicate k x) by done.
  split; [done|]. split; [|apply take_drop].
  unfold Array02.head. change 0 with (Z.of_nat 0).
  by rewrite get_nat, lookup_drop, Nat.add_0_r, Hk.
Qed.

Lemma dropWhile_drops_maximal_prefix_witness :
  Array02.dropWhile [1; 2; 3; 4; 5; 1] (fun v _ _ => v <? 3)
    = drop 2 [1; 2; 3; 4; 5; 1] /\
  Array02.head (Array02.dropWhile [1; 2; 3; 4; 5; 1] (fun v _ _ => v <? 3))
    = Val 3 /\
  take 2 [1; 2; 3; 4; 5; 1]
    ++ Array02.dropWhile [1; 2; 3; 4; 5; 1] (fun v _ _ => v <? 3)
    = [1; 2; 3; 4; 5; 1].
Proof.
  apply (dropWhile_drops_maximal_prefix [1; 2; 3; 4; 5; 1]
           (fun v _ _ => v <? 3) 2 3).
  - reflexivity.
  - reflexivity.
  - intros [|[|j]] y Hj Hy; simpl in Hy; try lia;
      injection Hy as <-; reflexivity.
Defined.

(** X20: for a predicate on values that is false at index [k] and true at
    every later index, [dropRightWhile] keeps exactly the elements up to
    and including index [k]. *)
Theorem dropRightWhile_drops_maximal_suffix {T : Type} (collection : list T)
    (q : T -> bool) (k : nat) (x : T) :
  collection !! k = Some x ->
  q x = false ->
  (forall (j : nat) y, (k < j)%nat -> collection !! j = Some y ->
                       q y = true) ->
  Array02.dropRightWhile collection (fun v _ _ => q v) =
  take (S k) collection.
Proof.
  intros Hk Hx Hafter. pose proof (lookup_lt_Some _ _ _ Hk) as Hlt.
  rewrite (dropRightWhile_last_false collection (fun v _ _ => q v)
             (length collection - S k) x).
  - f_equal. lia.
  - rewrite rev_lookup by lia. rewrite <- Hk. f_equal. lia.
  - done.
  - intros j y Hj Hy. rewrite rev_lookup in Hy by lia.
    apply (Hafter _ y) in Hy; [done|lia].
Qed.

Lemma dropRightWhile_drops_maximal_suffix_witness :
  Array02.dropRightWhile [5; 4; 3; 2; 1] (fun v _ _ => v <? 3) =
  take 3 [5; 4; 3; 2; 1].
Proof.
  apply (dropRightWhile_drops_maximal_suffix [5; 4; 3; 2; 1]
           (fun v => v <? 3) 2 3).
  - reflexivity.
  - reflexivity.
  - intros [|[|[|[|[|j]]]]] y Hj Hy; simpl in Hy; try lia; try done;
      injection Hy as <-; reflexivity.
Defined.

(** ** zip ignores what lies past the first array *)

(** X21: [zip] only reads the first [array1.length] elements of [array2]
    and [array3]: cutting both to that length does not change the result,
    and an empty [array1] gives an empty result. *)
Theorem zip_ignores_longer_arrays {T U V : Type} (array1 : list T)
    (array2 : list U) (array3 : list V) :
  Array02.zip array1 array2 array3 =
    Array02.zip array1 (take (length array1) array2)
                (take (length array1) array3) /\
  Array02.zip (@nil T) array2 array3 = [].
Proof.
  split; [|done]. rewrite !zip_entries.
  apply list_eq. intros i. rewrite !list_lookup_fmap.
  destruct (decide (i < length array1)%nat) as [Hi|Hi].
  - rewrite lookup_seq_lt by done. simpl. unfold zip_entry.
    by rewrite !get_nat, !lookup_take_lt by done.
  - by rewrite lookup_seq_ge by lia.
Qed.

(** ** Stack: laws of push, pop, peek and toArray *)

Section StackLaws.
Import Stack06 StackRun.
Context {T : Type}.
Implicit Types (s : Stack T) (l : list T) (ops : list (op T)).

Lemma run_app ops1 ops2 s :
  run (ops1 ++ ops2) s =
  (fst (run ops1 s) ++ fst (run ops2 (snd (run ops1 s))),
   snd (run ops2 (snd (run ops1 s)))).
Proof.
  revert s. induction ops1 as [|o ops1 IH]; intros s.
  - simpl. by destruct (run ops2 s).
  - cbn [run app fst snd]. by rewrite IH.
Qed.

Lemma run_pushes l s :
  run (Push <$> l) s =
  (Pushed <$> l, {| array := rev l ++ array s |}).
Proof.
  revert s. induction l as [|x l IH]; intros [a]; [done|].
  cbn [fmap list_fmap run step fst snd]. rewrite IH.
  cbn [fst snd push array rev]. by rewrite <- app_assoc.
Qed.

Lemma run_pops l :
  run (replicate (length l) Pop) {| array := l |} =
  ((fun x => Popped (Val x)) <$> l, @new T).
Proof.
  induction l as [|x l IH]; [done|].
  cbn [length replicate run step fst snd]. rewrite pop_cons.
  cbn [fst snd]. by rewrite IH.
Qed.

Lemma peek_cons x l : peek {| array := x :: l |} = Val x.
Proof. done. Qed.

End StackLaws.

Section StackExtras.
Import Stack06 StackRun.

(** X22: on every stack, a [push] followed by a [pop] returns the pushed
    value and leaves the stack exactly as it was before the push; [peek]
    after the [push] shows the same value without removing it. *)
Theorem pop_undoes_push {T : Type} (x : T) (s : Stack T) :
  pop (push x s) = (Val x, s) /\
  peek (push x s) = Val x.
Proof. rewrite pop_push. by destruct s. Qed.

(** X23: pushing the elements of a list onto a new Stack and then popping
    as many times returns the elements in reverse order and leaves the
    Stack empty. *)
Theorem pops_return_pushes_reversed {T : Type} (l : list T) :
  run ((Push <$> l) ++ replicate (length l) Pop) new =
  ((Pushed <$> l) ++ ((fun x => Popped (Val x)) <$> rev l), new).
Proof.
  rewrite run_app, run_pushes. cbn [fst snd new array].
  rewrite app_nil_r, <- (length_rev l), run_pops. done.
Qed.

(** X24: after any sequence of calls on a new Stack, [peek] returns the
    latest pushed value that has not been popped, or [null] when there is
    none; on a non-empty stack it returns what [pop] would return. *)
Theorem peek_shows_latest_pending {T : Type} (ops : list (op T)) :
  peek (snd (run ops new)) =
    match last (pending ops) with
    | Some v => Val v
    | None => null
    end /\
  (size (snd (run ops new)) <> 0 ->
   peek (snd (run ops new)) = fst (pop (snd (run ops new)))).
Proof.
  pose proof (run_pending_from ops (@new T)) as Harr.
  simpl in Harr. fold (pending ops) in Harr.
  destruct (snd (run ops new)) as [a]. simpl in Harr. subst a.
  destruct (pending ops) as [|v held _] using rev_ind.
  - split; [done|]. intros Hsize. done.
  - rewrite last_snoc, rev_unit, pop_cons. done.
Qed.

(** X25: after any sequence of calls on a new Stack, [toArray] lists the
    values pushed and not yet popped, the latest push first; so after
    pushing the elements of a list it is the reversed list. *)
Theorem toArray_latest_first {T : Type} (ops : list (op T)) :
  toArray (snd (run ops new)) = rev (pending ops) /\
  (forall l : list T, toArray (snd (run (Push <$> l) new)) = rev l).
Proof.
  split; [apply (run_pending_from ops (@new T))|].
  intros l. rewrite run_pushes. simpl. by rewrite app_nil_r.
Qed.

End StackExtras.

(** ** fill with an empty range *)

(** X26: when [endIndex <= startIndex] the loop of [fill] does not run,
    whatever the two indices are: the result is a new array equal to the
    input, and the input is left as it was. *)
Theorem fill_empty_range_copies {T : Type} (h : gmap loc (jsarray T))
    (collection : loc) (seq : list T) (v : T) (startIndex endIndex : Z) :
  h !! collection = Some (dense seq) ->
  endIndex <= startIndex ->
  exists result h',
    Array02.fill h collection v startIndex endIndex = Some (result, h') /\
    h !! result = None /\
    h' !! result = Some (dense seq) /\
    h' !! collection = Some (dense seq).
Proof.
  intros Hc He. eexists (fresh (dom h)), _.
  split; [by apply fill_unfold|].
  pose proof (fresh_unallocated h) as Hfresh.
  replace (Z.to_nat (endIndex - startIndex)) with 0%nat by lia.
  split; [done|]. split; [by rewrite lookup_insert_eq|].
  rewrite lookup_insert_ne; [done|]. congruence.
Qed.

Lemma fill_empty_range_copies_witness :
  exists result h',
    Array02.fill (heap_of [1; 2; 3]) 0%nat 9 7 (-2) = Some (result, h') /\
    heap_of [1; 2; 3] !! result = None /\
    h' !! result = Some (dense [1; 2; 3]) /\
    h' !! 0%nat = Some (dense [1; 2; 3]).
Proof.
  apply (fill_empty_range_copies (heap_of [1; 2; 3]) 0%nat [1; 2; 3] 9 7 (-2)).
  - reflexivity.
  - lia.
Defined.

(** ** chunk: the default size and sizes at least the length *)

(** X27: with the size omitted [chunk] splits the input into one-element
    groups, one per element and in order; the empty input gives no group
    for any size other than 0. *)
Theorem chunk_default_singletons {T : Type} (input : list T) :
  Array02.chunk input None = inr ((fun x => [x]) <$> input) /\
  (forall n, n <> 0 -> Array02.chunk (@nil T) (Some n) = inr []).
Proof.
  split.
  - change (Array02.chunk input None) with (Array02.chunk input (Some 1)).
    rewrite chunk_windows by lia. f_equal.
    pose proof (ceil_div_bounds (len input) 1 ltac:(lia)) as Hb.
    replace (Z.to_nat (ceil_div (len input) 1)) with (length input)
      by (unfold len in *; lia).
    apply list_eq. intros i. unfold windows.
    rewrite !list_lookup_fmap.
    destruct (input !! i) as [x|] eqn:Hx.
    + rewrite lookup_seq_lt by (by apply lookup_lt_Some in Hx). simpl.
      rewrite Nat.mul_1_r. by rewrite (drop_S _ x) by done.
    + apply lookup_ge_None in Hx. by rewrite lookup_seq_ge by lia.
  - intros n Hn. unfold Array02.chunk. cbn [from_option id].
    destruct (Z.eqb_spec n 0); [done|]. unfold ceil_div, len. simpl.
    by rewrite Z.div_0_l by done.
Qed.

(** X28: a size at least the length of a non-empty input gives the input
    itself as the only group. *)
Theorem chunk_one_group {T : Type} (input : list T) (n : Z) :
  input <> [] -> len input <= n ->
  Array02.chunk input (Some n) = inr [input].
Proof.
  intros Hne Hn.
  assert (1 <= len input)
    by (destruct input; [done|unfold len; simpl; lia]).
  rewrite chunk_windows by lia.
  pose proof (ceil_div_bounds (len input) n ltac:(lia)) as Hb.
  replace (Z.to_nat (ceil_div (len input) n)) with 1%nat by nia.
  unfold windows. simpl. do 2 f_equal.
  apply take_ge. unfold len in *. lia.
Qed.

Lemma chunk_one_group_witness :
  Array02.chunk [1; 2; 3] (Some 5) = inr [[1; 2; 3]].
Proof.
  apply (chunk_one_group [1; 2; 3] 5); [done|unfold len; simpl; lia].
Defined.
